(** * Todo application: task store, validators, service core and web client

    A shallow embedding of

    - the in-memory task store and the validators of [specs/data-model.md]
      (module [Store]);
    - the error-handling pattern of [constitution.md] (module [Pattern]);
    - the owner-scoped repository and service of the design, whose backend
      sources are not part of the tree (module [Core]);
    - the HTTP client of [frontend/src/lib/api.ts], [frontend/src/lib/auth.ts]
      and [frontend/src/components/chatbot.tsx] (module [Client]);
    - the dashboard page's task-list handlers (module [Dashboard]).

    Definitions come first, statements after them. *)

From Stdlib Require Import ZArith List String Ascii Bool Lia Sorted DecimalString.
From Stdlib Require DecimalPos DecimalZ.
Import ListNotations.

Local Open Scope string_scope.
Local Open Scope Z_scope.

(** ** Python strings *)

Module Py.

(** [str.isspace] on the code points below 256: TAB..CR, FS..US, SPACE,
    NEL (0x85) and NBSP (0xA0). *)
Definition isspace (c : ascii) : bool :=
  let n := N_of_ascii c in
  ((9 <=? n) && (n <=? 13) || (28 <=? n) && (n <=? 32)
   || (n =? 133) || (n =? 160))%N.

(** [s.lstrip()] *)
Fixpoint lstrip (s : string) : string :=
  match s with
  | EmptyString => EmptyString
  | String c s' => if isspace c then lstrip s' else s
  end.

(** [s.rstrip()] *)
Fixpoint rstrip (s : string) : string :=
  match s with
  | EmptyString => EmptyString
  | String c s' =>
      match rstrip s' with
      | EmptyString => if isspace c then EmptyString else String c EmptyString
      | r => String c r
      end
  end.

(** [s.strip()] *)
Definition strip (s : string) : string := rstrip (lstrip s).

(** [len(s)] *)
Definition len (s : string) : Z := Z.of_nat (String.length s).

(** [not s]: a string is falsy exactly when it is empty. *)
Definition falsy (s : string) : bool :=
  match s with EmptyString => true | _ => false end.

(** [c * n] for a one-character string [c]. *)
Fixpoint times (c : ascii) (n : nat) : string :=
  match n with
  | O => EmptyString
  | S n' => String c (times c n')
  end.

(** Every character of [s] is whitespace. *)
Fixpoint all_space (s : string) : bool :=
  match s with
  | EmptyString => true
  | String c s' => isspace c && all_space s'
  end.

End Py.

(** ** Exceptions and results *)

Inductive exception : Type :=
| InvalidTaskDataError (message : string)
| TaskNotFoundError (task_id : Z).   (* f"Task {task_id} not found" *)

Inductive result (E A : Type) : Type :=
| Ok (a : A)
| Raise (e : E).

Arguments Ok {E A} a.
Arguments Raise {E A} e.

Definition bind {E A B : Type} (r : result E A) (k : A -> result E B)
  : result E B :=
  match r with
  | Ok a => k a
  | Raise e => Raise e
  end.

Notation "r ;;; k" := (bind r (fun _ => k))
  (at level 61, right associativity).

Definition raises {E A : Type} (r : result E A) : bool :=
  match r with Ok _ => false | Raise _ => true end.

(** ** The Phase I store ([specs/data-model.md]) *)

Module Store.

Definition datetime := Z.

Record Task : Type := mkTask {
  id : Z;
  title : string;
  description : string;
  completed : bool;
  created_at : datetime;
  updated_at : datetime
}.

(** *** Validation rules *)

Definition validate_title (title : string) : result exception unit :=
  if Py.falsy title || (Py.len (Py.strip title) =? 0) then
    Raise (InvalidTaskDataError "Title cannot be empty")
  else if Py.len title >? 200 then
    Raise (InvalidTaskDataError "Title cannot exceed 200 characters")
  else Ok tt.

Definition validate_description (description : string)
  : result exception unit :=
  if Py.len description >? 1000 then
    Raise (InvalidTaskDataError "Description cannot exceed 1000 characters")
  else Ok tt.

(** *** Storage: [dict[int, Task]], which keeps insertion order *)

Definition dict := list (Z * Task).

(** [d.get(k)] *)
Fixpoint dict_get (d : dict) (k : Z) : option Task :=
  match d with
  | [] => None
  | (k', v) :: d' => if k' =? k then Some v else dict_get d' k
  end.

(** [k in d] *)
Definition dict_contains (d : dict) (k : Z) : bool :=
  match dict_get d k with Some _ => true | None => false end.

(** [d[k] = v]: a key already present keeps its position, a new key is
    entered last. *)
Fixpoint dict_set (d : dict) (k : Z) (v : Task) : dict :=
  match d with
  | [] => [(k, v)]
  | (k', v') :: d' =>
      if k' =? k then (k, v) :: d' else (k', v') :: dict_set d' k v
  end.

(** [del d[k]] *)
Fixpoint dict_del (d : dict) (k : Z) : dict :=
  match d with
  | [] => []
  | (k', v') :: d' => if k' =? k then d' else (k', v') :: dict_del d' k
  end.

(** [list(d.values())] *)
Definition dict_values (d : dict) : list Task := map snd d.

Definition dict_keys (d : dict) : list Z := map fst d.

Record MemoryStore : Type := mkStore {
  _tasks : dict;      (* Task ID -> Task object *)
  _next_id : Z        (* Auto-increment counter *)
}.

Definition __init__ : MemoryStore := {| _tasks := []; _next_id := 1 |}.

Definition _generate_id (self : MemoryStore) : Z * MemoryStore :=
  let current_id := _next_id self in
  (current_id, {| _tasks := _tasks self; _next_id := _next_id self + 1 |}).

(** *** CRUD operations.  [now] is the reading [datetime.utcnow()] returns
    inside the call. *)

Definition create (self : MemoryStore) (now : datetime)
    (title description : string) : Task * MemoryStore :=
  let (task_id, self) := _generate_id self in
  let task := {| id := task_id;
                 title := Py.strip title;
                 description := Py.strip description;
                 completed := false;
                 created_at := now;
                 updated_at := now |} in
  (task, {| _tasks := dict_set (_tasks self) task_id task;
            _next_id := _next_id self |}).

Definition get (self : MemoryStore) (task_id : Z) : option Task :=
  dict_get (_tasks self) task_id.

Definition get_all (self : MemoryStore) : list Task :=
  dict_values (_tasks self).

Definition update (self : MemoryStore) (now : datetime) (task_id : Z)
    (title description : string) : result exception (Task * MemoryStore) :=
  match dict_get (_tasks self) task_id with
  | None => Raise (TaskNotFoundError task_id)
  | Some task =>
      let updated_task := {| id := id task;
                             title := Py.strip title;
                             description := Py.strip description;
                             completed := completed task;
                             created_at := created_at task;
                             updated_at := now |} in
      Ok (updated_task,
          {| _tasks := dict_set (_tasks self) task_id updated_task;
             _next_id := _next_id self |})
  end.

Definition delete (self : MemoryStore) (task_id : Z) : bool * MemoryStore :=
  if dict_contains (_tasks self) task_id then
    (true, {| _tasks := dict_del (_tasks self) task_id;
              _next_id := _next_id self |})
  else (false, self).

Definition toggle_completion (self : MemoryStore) (now : datetime)
    (task_id : Z) : result exception (Task * MemoryStore) :=
  match dict_get (_tasks self) task_id with
  | None => Raise (TaskNotFoundError task_id)
  | Some task =>
      let updated_task := {| id := id task;
                             title := title task;
                             description := description task;
                             completed := negb (completed task);  (* Toggle *)
                             created_at := created_at task;
                             updated_at := now |} in
      Ok (updated_task,
          {| _tasks := dict_set (_tasks self) task_id updated_task;
             _next_id := _next_id self |})
  end.

(** *** Sessions: the calls a client makes on one store, in order *)

Inductive call : Type :=
| Create (now : datetime) (title description : string)
| Get (task_id : Z)
| GetAll
| Update (now : datetime) (task_id : Z) (title description : string)
| Delete (task_id : Z)
| ToggleCompletion (now : datetime) (task_id : Z).

(** The store a call leaves behind; a call that raises leaves it as it was. *)
Definition step (self : MemoryStore) (c : call) : MemoryStore :=
  match c with
  | Create now t d => snd (create self now t d)
  | Get _ | GetAll => self
  | Update now i t d =>
      match update self now i t d with Ok (_, s) => s | Raise _ => self end
  | Delete i => snd (delete self i)
  | ToggleCompletion now i =>
      match toggle_completion self now i with
      | Ok (_, s) => s
      | Raise _ => self
      end
  end.

Definition run (self : MemoryStore) (cs : list call) : MemoryStore :=
  fold_left step cs self.

(** The ids the [Create] calls of a session returned, oldest first. *)
Fixpoint issued (self : MemoryStore) (cs : list call) : list Z :=
  match cs with
  | [] => []
  | c :: cs' =>
      match c with
      | Create now t d => [id (fst (create self now t d))]
      | _ => []
      end ++ issued (step self c) cs'
  end.

(** The clock readings a session takes, in order. *)
Fixpoint clock (cs : list call) : list datetime :=
  match cs with
  | [] => []
  | Create now _ _ :: cs' => now :: clock cs'
  | Update now _ _ _ :: cs' => now :: clock cs'
  | ToggleCompletion now _ :: cs' => now :: clock cs'
  | _ :: cs' => clock cs'
  end.

(** The creation times of the listed tasks, in listing order. *)
Definition stamps (self : MemoryStore) : list datetime :=
  map created_at (get_all self).

(** Ids strictly ascending along a list of tasks. *)
Definition ascending (l : list Task) : Prop :=
  StronglySorted (fun a b => id a < id b) l.

(** Well-formed stores: keys ascend, every task is filed under its own id,
    and every key is below the counter. *)
Definition wf (self : MemoryStore) : Prop :=
  StronglySorted Z.lt (dict_keys (_tasks self))
  /\ Forall (fun kv => fst kv = id (snd kv) /\ fst kv < _next_id self)
            (_tasks self).

(** The number of [Create] calls in a session. *)
Fixpoint creations (cs : list call) : nat :=
  match cs with
  | [] => O
  | Create _ _ _ :: cs' => S (creations cs')
  | _ :: cs' => creations cs'
  end.

(** [n] consecutive integers from [a] on. *)
Fixpoint upto (a : Z) (n : nat) : list Z :=
  match n with
  | O => []
  | S n' => a :: upto (a + 1) n'
  end.

(** Neither field of the task has white space at either end. *)
Definition stripped (t : Task) : Prop :=
  Py.strip (title t) = title t /\ Py.strip (description t) = description t.

(** The entry was created no later than it was last updated, and that no
    later than [b]. *)
Definition timely (b : datetime) (kv : Z * Task) : Prop :=
  created_at (snd kv) <= updated_at (snd kv) <= b.

End Store.

(** ** The error-handling pattern of [constitution.md] *)

Module Pattern.

Definition update_task (storage : Store.MemoryStore) (now : Store.datetime)
    (task_id : Z) (title description : string)
  : result exception (Store.Task * Store.MemoryStore) :=
  (* Validate inputs *)
  if Py.falsy title || (Py.len (Py.strip title) =? 0) then
    Raise (InvalidTaskDataError "Title cannot be empty")
  else
    (* Check existence *)
    match Store.get storage task_id with
    | None => Raise (TaskNotFoundError task_id)
    | Some _ =>
        (* Perform operation *)
        Store.update storage now task_id title description
    end.

End Pattern.

(** ** The owner-scoped core

    The backend that serves the client (its models, routes and repository)
    is not part of the tree.  The definitions of this module follow the
    design document instead; the validators they call are the ones of
    [Store]. *)

Module Core.

Definition owner := string.
Definition timestamp := Z.

(** Modelled from the spec: the Task record of the data model (the backend's
    models are missing), with the field [owner_id] the client's [Task]
    interface calls [user_id]. *)
Record Task : Type := mkTask {
  id : Z;
  owner_id : owner;
  title : string;
  description : string;
  completed : bool;
  created_at : timestamp;
  updated_at : timestamp
}.

(** Modelled from the spec: the error taxonomy (the backend's exceptions are
    missing); [StorageError] is a fault of the database, which a pure table
    does not have. *)
Inductive error : Type :=
| ValidationError (message : string)
| NotFoundError.

(** Modelled from the spec: the repository's table (the backend's database
    layer is missing): the rows in insertion order and the next id. *)
Record Repository : Type := mkRepository {
  rows : list Task;
  next_id : Z
}.


(** Modelled from the spec: the filter every repository operation applies
    (missing): the row bears the id and belongs to the owner. *)
Definition matches (o : owner) (i : Z) (t : Task) : bool :=
  (id t =? i) && (owner_id t =? o)%string.

(** Modelled from the spec: [Repository.create] (missing): assigns a new
    unique id, sets completed to false and stamps both times with now. *)
Definition create (r : Repository) (now : timestamp) (o : owner)
    (title description : string) : Task * Repository :=
  let t := {| id := next_id r; owner_id := o; title := title;
              description := description; completed := false;
              created_at := now; updated_at := now |} in
  (t, {| rows := rows r ++ [t]; next_id := next_id r + 1 |}).

(** Modelled from the spec: [Repository.get] (missing): the task only if it
    exists and belongs to the owner. *)
Definition get (r : Repository) (o : owner) (i : Z) : option Task :=
  find (matches o i) (rows r).

(** Modelled from the spec: [Repository.list] (missing): the owner's tasks in
    insertion order ([list_], since [list] is the type). *)
Definition list_ (r : Repository) (o : owner) : list Task :=
  filter (fun t => (owner_id t =? o)%string) (rows r).

(** Modelled from the spec: the in-place row update of the repository
    (missing): the matching row is rewritten where it stands. *)
Definition amend (o : owner) (i : Z) (f : Task -> Task) (l : list Task)
  : list Task :=
  map (fun t => if matches o i t then f t else t) l.

(** Modelled from the spec: [Repository.update] (missing): replaces title and
    description, keeps id, owner, completed and creation time, refreshes
    [updated_at]; [NotFoundError] without a matching owned task. *)
Definition update (r : Repository) (now : timestamp) (o : owner) (i : Z)
    (title description : string) : result error (Task * Repository) :=
  match get r o i with
  | None => Raise NotFoundError
  | Some t =>
      let f t := {| id := id t; owner_id := owner_id t; title := title;
                    description := description; completed := completed t;
                    created_at := created_at t; updated_at := now |} in
      Ok (f t, {| rows := amend o i f (rows r); next_id := next_id r |})
  end.

(** Modelled from the spec: [Repository.set_completed] (missing): sets
    completed to the given value and refreshes [updated_at]. *)
Definition set_completed (r : Repository) (now : timestamp) (o : owner)
    (i : Z) (value : bool) : result error (Task * Repository) :=
  match get r o i with
  | None => Raise NotFoundError
  | Some t =>
      let f t := {| id := id t; owner_id := owner_id t; title := title t;
                    description := description t; completed := value;
                    created_at := created_at t; updated_at := now |} in
      Ok (f t, {| rows := amend o i f (rows r); next_id := next_id r |})
  end.

(** Modelled from the spec: [Repository.delete] (missing): removes the task
    if present and owned and says whether a row went away. *)
Definition delete (r : Repository) (o : owner) (i : Z) : bool * Repository :=
  match get r o i with
  | None => (false, r)
  | Some _ =>
      (true, {| rows := filter (fun t => negb (matches o i t)) (rows r);
                next_id := next_id r |})
  end.

(** Modelled from the spec: how the service reports a validator's failure
    (missing): the validators are those of the data model, and their
    exception becomes [ValidationError] with the same message. *)
Definition validation (r : result exception unit) : result error unit :=
  match r with
  | Ok u => Ok u
  | Raise (InvalidTaskDataError message) => Raise (ValidationError message)
  | Raise (TaskNotFoundError _) => Raise NotFoundError
  end.

(** Modelled from the spec: [create_task] of the service (missing): the
    validator first, title then description, and no repository write on
    failure; the fields are trimmed once, here. *)
Definition create_task (r : Repository) (now : timestamp) (o : owner)
    (title description : string) : result error (Task * Repository) :=
  validation (Store.validate_title title) ;;;
  validation (Store.validate_description description) ;;;
  Ok (create r now o (Py.strip title) (Py.strip description)).

(** Modelled from the spec: [list_tasks] of the service (missing). *)
Definition list_tasks (r : Repository) (o : owner) : list Task := list_ r o.


(** Modelled from the spec: [toggle_completion] of the service (missing). *)
Definition toggle_completion (r : Repository) (now : timestamp) (o : owner)
    (i : Z) (value : bool) : result error (Task * Repository) :=
  set_completed r now o i value.

(** Modelled from the spec: [delete_task] of the service (missing). *)
Definition delete_task (r : Repository) (o : owner) (i : Z)
  : bool * Repository :=
  delete r o i.

(** The calls of a session.  The tree has an [update_task] only in the
    single-user form of the constitution ([Pattern.update_task]); here an
    update goes to [Repository.update] as it is, with any title and
    description, which covers whatever validation a service puts in front
    of it. *)
Inductive call : Type :=
| CreateTask (now : timestamp) (o : owner) (title description : string)
| ListTasks (o : owner)
| GetTask (o : owner) (i : Z)
| Update (now : timestamp) (o : owner) (i : Z) (title description : string)
| ToggleCompletion (now : timestamp) (o : owner) (i : Z) (value : bool)
| DeleteTask (o : owner) (i : Z).

Definition after {A : Type} (r : Repository)
    (x : result error (A * Repository)) : Repository :=
  match x with Ok (_, r') => r' | Raise _ => r end.

Definition step (r : Repository) (c : call) : Repository :=
  match c with
  | CreateTask now o t d => after r (create_task r now o t d)
  | ListTasks _ | GetTask _ _ => r
  | Update now o i t d => after r (update r now o i t d)
  | ToggleCompletion now o i v => after r (toggle_completion r now o i v)
  | DeleteTask o i => snd (delete_task r o i)
  end.

Definition run (r : Repository) (cs : list call) : Repository :=
  fold_left step cs r.

(** Ids ascend along the rows and stay below the counter. *)
Definition wf (r : Repository) : Prop :=
  StronglySorted Z.lt (map id (rows r))
  /\ Forall (fun t => id t < next_id r) (rows r).


End Core.

(** ** JavaScript strings and values *)

Module Js.

(** White space and line terminators among the code points below 256, as
    [String.prototype.trim] removes them. *)
Definition isspace (c : ascii) : bool :=
  let n := N_of_ascii c in
  ((9 <=? n) && (n <=? 13) || (n =? 32) || (n =? 160))%N.

Fixpoint trimStart (s : string) : string :=
  match s with
  | EmptyString => EmptyString
  | String c s' => if isspace c then trimStart s' else s
  end.

Fixpoint trimEnd (s : string) : string :=
  match s with
  | EmptyString => EmptyString
  | String c s' =>
      match trimEnd s' with
      | EmptyString => if isspace c then EmptyString else String c EmptyString
      | r => String c r
      end
  end.

Definition trim (s : string) : string := trimEnd (trimStart s).

(** A string is truthy exactly when it is not empty. *)
Definition truthy (s : string) : bool :=
  match s with EmptyString => false | _ => true end.

(** [`${n}`] for an integral number. *)
Definition ofNumber (n : Z) : string := NilZero.string_of_int (Z.to_int n).

Inductive value : Type :=
| Null
| Boolean (b : bool)
| Number (n : Z)
| Str (s : string).

(** An object literal with scalar fields. *)
Definition object := list (string * value).

(** Truthiness of a property read: a missing one is [undefined]. *)
Definition truthyValue (v : option value) : bool :=
  match v with
  | None | Some Null => false
  | Some (Boolean b) => b
  | Some (Number n) => negb (n =? 0)
  | Some (Str s) => truthy s
  end.

(** [String(v)] *)
Definition toString (v : value) : string :=
  match v with
  | Null => "null"
  | Boolean true => "true"
  | Boolean false => "false"
  | Number n => ofNumber n
  | Str s => s
  end.

(** [o.name]; the keys of an object are distinct. *)
Fixpoint field (name : string) (o : object) : option value :=
  match o with
  | [] => None
  | (n, v) :: o' => if (n =? name)%string then Some v else field name o'
  end.

End Js.

(** ** The client: [frontend/src/lib/auth.ts] *)

Module Auth.

Record User : Type := mkUser {
  id : string;
  email : string;
  name : option string
}.

(** What the code reads from its surroundings: whether [window] is defined,
    the [token] item of [localStorage], and the build-time
    [NEXT_PUBLIC_API_URL]. *)
Record Browser : Type := mkBrowser {
  window : bool;
  token : option string;
  NEXT_PUBLIC_API_URL : option string
}.

Definition getToken (env : Browser) : option string :=
  if window env then token env else None.

End Auth.

(** ** The client: [frontend/src/lib/api.ts] *)

Module Api.

Definition API_URL (env : Auth.Browser) : string :=
  match Auth.NEXT_PUBLIC_API_URL env with
  | Some u => if Js.truthy u then u else "http://localhost:8000"
  | None => "http://localhost:8000"
  end.

Record Task : Type := mkTask {
  id : Z;
  user_id : string;
  title : string;
  description : string;
  completed : bool;
  created_at : string;
  updated_at : string
}.

Definition headers := list (string * string).

Inductive method : Type := GET | POST | PUT | DELETE | PATCH.

(** A request as the code hands it to [axios] or [fetch]: what the library
    adds of its own is not part of it. *)
Record request : Type := mkRequest {
  verb : method;
  url : string;
  data : option Js.object;
  hdrs : headers
}.

(** Helper to get authorization headers *)
Definition getAuthHeaders (env : Auth.Browser) : headers :=
  match Auth.getToken env with
  | Some token =>
      if Js.truthy token then [("Authorization", "Bearer " ++ token)] else []
  | None => []
  end.

Definition getTasks (env : Auth.Browser) (userId : string) : request :=
  {| verb := GET;
     url := API_URL env ++ "/api/" ++ userId ++ "/tasks";
     data := None;
     hdrs := getAuthHeaders env |}.

Definition createTask (env : Auth.Browser) (userId : string)
    (task : Js.object) : request :=
  {| verb := POST;
     url := API_URL env ++ "/api/" ++ userId ++ "/tasks";
     data := Some task;
     hdrs := getAuthHeaders env |}.

Definition updateTask (env : Auth.Browser) (userId : string) (taskId : Z)
    (task : Js.object) : request :=
  {| verb := PUT;
     url := API_URL env ++ "/api/" ++ userId ++ "/tasks/" ++ Js.ofNumber taskId;
     data := Some task;
     hdrs := getAuthHeaders env |}.

Definition deleteTask (env : Auth.Browser) (userId : string) (taskId : Z)
  : request :=
  {| verb := DELETE;
     url := API_URL env ++ "/api/" ++ userId ++ "/tasks/" ++ Js.ofNumber taskId;
     data := None;
     hdrs := getAuthHeaders env |}.

Definition toggleTaskCompletion (env : Auth.Browser) (userId : string)
    (taskId : Z) (completed : bool) : request :=
  {| verb := PATCH;
     url := API_URL env ++ "/api/" ++ userId ++ "/tasks/"
            ++ Js.ofNumber taskId ++ "/complete";
     data := Some [("completed", Js.Boolean completed)];
     hdrs := getAuthHeaders env |}.

Definition chatWithAI (env : Auth.Browser) (userId message : string)
    (conversationId : option Z) : request :=
  let payload :=
    [("message", Js.Str message);
     ("conversation_id",
      match conversationId with
      | Some n => Js.Number n
      | None => Js.Null
      end)] in
  {| verb := POST;
     url := API_URL env ++ "/api/" ++ userId ++ "/chat";
     data := Some payload;
     hdrs := getAuthHeaders env |}.

(** The exported operations with their arguments. *)
Inductive operation : Type :=
| GetTasks (userId : string)
| CreateTask (userId : string) (task : Js.object)
| UpdateTask (userId : string) (taskId : Z) (task : Js.object)
| DeleteTask (userId : string) (taskId : Z)
| ToggleTaskCompletion (userId : string) (taskId : Z) (completed : bool)
| ChatWithAI (userId message : string) (conversationId : option Z).

Definition issue (env : Auth.Browser) (op : operation) : request :=
  match op with
  | GetTasks u => getTasks env u
  | CreateTask u t => createTask env u t
  | UpdateTask u i t => updateTask env u i t
  | DeleteTask u i => deleteTask env u i
  | ToggleTaskCompletion u i c => toggleTaskCompletion env u i c
  | ChatWithAI u m c => chatWithAI env u m c
  end.

(** The value of a header of a request. *)
Fixpoint header (name : string) (h : headers) : option string :=
  match h with
  | [] => None
  | (n, v) :: h' => if (n =? name)%string then Some v else header name h'
  end.

(** The bearer credential a request carries, if any. *)
Definition bearer (r : request) : option string :=
  match header "Authorization" (hdrs r) with
  | Some v =>
      if prefix "Bearer " v then Some (substring 7 (String.length v - 7) v)
      else None
  | None => None
  end.

End Api.

(** ** The client: the rest of [frontend/src/lib/auth.ts]

    [localStorage] is taken to exist exactly where [window] does. *)

Module Login.

Inductive thrown : Type :=
| Error (message : string)
| ReferenceError (name : string)
| Rejected.                       (* [fetch] or [json()] rejected *)

(** What [fetch] resolved to: the [ok] flag and the JSON body. *)
Record response : Type := mkResponse {
  ok : bool;
  body : Js.object
}.

(** What [/auth/me] resolved to. *)
Record me : Type := mkMe {
  me_ok : bool;
  me_user : Auth.User
}.

Definition setItem (env : Auth.Browser) (v : string) : Auth.Browser :=
  {| Auth.window := Auth.window env; Auth.token := Some v;
     Auth.NEXT_PUBLIC_API_URL := Auth.NEXT_PUBLIC_API_URL env |}.

Definition removeItem (env : Auth.Browser) : Auth.Browser :=
  {| Auth.window := Auth.window env; Auth.token := None;
     Auth.NEXT_PUBLIC_API_URL := Auth.NEXT_PUBLIC_API_URL env |}.

(** The request [getCurrentUser] makes, if it makes one. *)
Definition getCurrentUser_request (env : Auth.Browser) : option Api.request :=
  match Auth.getToken env with
  | Some token =>
      if negb (Js.truthy token) then None
      else Some {| Api.verb := Api.GET;
                   Api.url := Api.API_URL env ++ "/auth/me";
                   Api.data := None;
                   Api.hdrs := [("Authorization", "Bearer " ++ token)] |}
  | None => None
  end.

Definition getCurrentUser (env : Auth.Browser) (reply : option me)
  : option Auth.User :=
  match getCurrentUser_request env with
  | None => None
  | Some _ =>
      match reply with
      | Some r => if negb (me_ok r) then None else Some (me_user r)
      | None => None                (* catch *)
      end
  end.

(** [signOut]: the storage it leaves and the address it sends the page to. *)
Definition signOut (env : Auth.Browser)
  : result thrown (Auth.Browser * option string) :=
  if Auth.window env then Ok (removeItem env, Some "/")
  else Raise (ReferenceError "localStorage").

Definition signInApi_request (env : Auth.Browser) (email password : string)
  : Api.request :=
  {| Api.verb := Api.POST;
     Api.url := Api.API_URL env ++ "/auth/login";
     Api.data := Some [("email", Js.Str email); ("password", Js.Str password)];
     Api.hdrs := [("Content-Type", "application/json")] |}.

(** [signInApi]: the data it returns and the storage it leaves. *)
Definition signInApi (env : Auth.Browser) (reply : option response)
  : result thrown (Js.object * Auth.Browser) :=
  match reply with
  | None => Raise Rejected
  | Some r =>
      if negb (ok r) then
        Raise (Error (match Js.field "detail" (body r) with
                      | Some d =>
                          if Js.truthyValue (Some d) then Js.toString d
                          else "Sign in failed"
                      | None => "Sign in failed"
                      end))
      else
        match Js.field "access_token" (body r) with
        | Some t =>
            if Js.truthyValue (Some t) then
              if Auth.window env then Ok (body r, setItem env (Js.toString t))
              else Raise (ReferenceError "localStorage")
            else Ok (body r, env)
        | None => Ok (body r, env)
        end
  end.

Definition signUpApi_request (env : Auth.Browser)
    (email password name : string) : Api.request :=
  {| Api.verb := Api.POST;
     Api.url := Api.API_URL env ++ "/auth/register";
     Api.data := Some [("email", Js.Str email); ("password", Js.Str password);
                       ("name", Js.Str name)];
     Api.hdrs := [("Content-Type", "application/json")] |}.

Definition signUpApi (env : Auth.Browser) (reply : option response)
  : result thrown (Js.object * Auth.Browser) :=
  match reply with
  | None => Raise Rejected
  | Some r =>
      if negb (ok r) then
        Raise (Error (match Js.field "detail" (body r) with
                      | Some d =>
                          if Js.truthyValue (Some d) then Js.toString d
                          else "Sign up failed"
                      | None => "Sign up failed"
                      end))
      else
        match Js.field "access_token" (body r) with
        | Some t =>
            if Js.truthyValue (Some t) then
              if Auth.window env then Ok (body r, setItem env (Js.toString t))
              else Raise (ReferenceError "localStorage")
            else Ok (body r, env)
        | None => Ok (body r, env)
        end
  end.

End Login.

(** ** The client: [frontend/src/components/chatbot.tsx] *)

Module ChatBot.

(** The request [sendMessage] makes for the message typed, if it makes one. *)
Definition sendMessage (userId message : string) : option Api.request :=
  if negb (Js.truthy (Js.trim message)) then None
  else
    Some {| Api.verb := Api.POST;
            Api.url := "http://localhost:8000/api/" ++ userId ++ "/chat";
            Api.data := Some [("message", Js.Str message)];
            Api.hdrs := [("Content-Type", "application/json")] |}.

(** The widget's state. *)
Record Entry : Type := mkEntry {
  role : string;
  text : option Js.value     (* [None]: [undefined] *)
}.

Record State : Type := mkState {
  isOpen : bool;
  message : string;
  chatHistory : list Entry;
  loading : bool
}.

(** What the request settled to.  A body that is a number, a string, a
    boolean or an array has no [response] of its own and reads like the
    empty object. *)
Inductive answer : Type :=
| Failed                     (* [fetch] or [json()] rejected *)
| JsonNull                   (* the body is [null] *)
| Json (data : Js.object).

(** [sendMessage] up to its [await]: [None] when it returns at once. *)
Definition sendMessage_before (st : State) : option State :=
  if negb (Js.truthy (Js.trim (message st))) then None
  else
    let userMsg := {| role := "user"; text := Some (Js.Str (message st)) |} in
    Some {| isOpen := isOpen st; message := "";
            chatHistory := chatHistory st ++ [userMsg]; loading := true |}.

(** [sendMessage] from its [await] on.  [prev] is the state the queued
    updates are applied to and [onTasksChanged] says whether that prop was
    given.  The result is the state the widget renders next, [None] when
    rendering throws (the history updater reads [data.response] when it is
    run, which fails on [null], outside the [try]), and whether the prop is
    called. *)
Definition sendMessage_after (prev : State) (onTasksChanged : bool)
    (reply : answer) : option State * bool :=
  match reply with
  | Json data =>
      (Some {| isOpen := isOpen prev; message := message prev;
               chatHistory :=
                 chatHistory prev
                 ++ [{| role := "ai"; text := Js.field "response" data |}];
               loading := false |},
       if onTasksChanged then true else false)
  | JsonNull => (None, if onTasksChanged then true else false)
  | Failed =>
      (Some {| isOpen := isOpen prev; message := message prev;
               chatHistory := chatHistory prev; loading := false |}, false)
  end.

(** One whole [sendMessage] with nothing else in between. *)
Definition sendMessage_whole (st : State) (onTasksChanged : bool)
    (reply : answer) : option State * bool :=
  match sendMessage_before st with
  | None => (Some st, false)
  | Some st' => sendMessage_after st' onTasksChanged reply
  end.

Definition typing (st : State) (m : string) : State :=
  {| isOpen := isOpen st; message := m; chatHistory := chatHistory st;
     loading := loading st |}.

(** A run of whole sends, each of a typed message with its answer; [None]
    once rendering has thrown. *)
Fixpoint conversation (st : State) (onTasksChanged : bool)
    (turns : list (string * answer)) : option State :=
  match turns with
  | [] => Some st
  | (m, reply) :: turns' =>
      match fst (sendMessage_whole (typing st m) onTasksChanged reply) with
      | Some st' => conversation st' onTasksChanged turns'
      | None => None
      end
  end.

End ChatBot.

(** ** The dashboard page *)

Module Dashboard.

Inductive Filter : Type := all | active | completed.

Record State : Type := mkState {
  user : option Auth.User;
  tasks : list Api.Task;
  loading : bool;
  newTaskTitle : string;
  newTaskDescription : string;
  editingTask : option Api.Task;
  filter : Filter;
  showAddTask : bool
}.

(** The state of the first render. *)
Definition initial : State :=
  {| user := None; tasks := []; loading := true; newTaskTitle := "";
     newTaskDescription := ""; editingTask := None; filter := all;
     showAddTask := false |}.

Definition setUser (st : State) (u : Auth.User) : State :=
  {| user := Some u; tasks := tasks st; loading := loading st;
     newTaskTitle := newTaskTitle st;
     newTaskDescription := newTaskDescription st;
     editingTask := editingTask st; filter := filter st;
     showAddTask := showAddTask st |}.

Definition setTasks (st : State) (l : list Api.Task) : State :=
  {| user := user st; tasks := l; loading := loading st;
     newTaskTitle := newTaskTitle st;
     newTaskDescription := newTaskDescription st;
     editingTask := editingTask st; filter := filter st;
     showAddTask := showAddTask st |}.

Definition setLoading (st : State) (b : bool) : State :=
  {| user := user st; tasks := tasks st; loading := b;
     newTaskTitle := newTaskTitle st;
     newTaskDescription := newTaskDescription st;
     editingTask := editingTask st; filter := filter st;
     showAddTask := showAddTask st |}.

(** [loadTasks]: [reply] is what [getTasks] resolved to, [None] when it
    threw. *)
Definition loadTasks (st : State) (reply : option (list Api.Task)) : State :=
  match reply with
  | Some data => setLoading (setTasks st data) false
  | None => setLoading st false
  end.

(** The request [handleCreateTask] sends, if it gets past its guard. *)
Definition handleCreateTask_request (env : Auth.Browser) (st : State)
  : option Api.request :=
  match user st with
  | None => None
  | Some u =>
      if negb (Js.truthy (Js.trim (newTaskTitle st))) then None
      else Some (Api.createTask env (Auth.id u)
                   [("title", Js.Str (newTaskTitle st));
                    ("description", Js.Str (newTaskDescription st))])
  end.

(** [handleCreateTask]: [reply] is what [createTask] resolved to, [None]
    when it threw. *)
Definition handleCreateTask (st : State) (reply : option Api.Task) : State :=
  match user st with
  | None => st
  | Some _ =>
      if negb (Js.truthy (Js.trim (newTaskTitle st))) then st
      else
        match reply with
        | Some task =>
            {| user := user st; tasks := task :: tasks st;
               loading := loading st;
               newTaskTitle := ""; newTaskDescription := "";
               editingTask := editingTask st; filter := filter st;
               showAddTask := false |}
        | None => st
        end
  end.

Definition admits (f : Filter) (task : Api.Task) : bool :=
  match f with
  | active => negb (Api.completed task)
  | completed => Api.completed task
  | all => true
  end.

(** The list the page renders. *)
Definition filteredTasks (st : State) : list Api.Task :=
  List.filter (admits (filter st)) (tasks st).



(** [fetchUser], run when the page mounts: the state it leaves, where it
    sends the router, and the task request it makes. *)
Definition fetchUser (env : Auth.Browser) (st : State)
    (who : option Login.me) (reply : option (list Api.Task))
  : State * option string * option Api.request :=
  match Login.getCurrentUser env who with
  | None => (st, Some "/", None)
  | Some currentUser =>
      (loadTasks (setUser st currentUser) reply, None,
       Some (Api.getTasks env (Auth.id currentUser)))
  end.

Definition handleToggleComplete_request (env : Auth.Browser) (st : State)
    (task : Api.Task) : option Api.request :=
  match user st with
  | None => None
  | Some u =>
      Some (Api.toggleTaskCompletion env (Auth.id u) (Api.id task)
              (negb (Api.completed task)))
  end.

Definition handleToggleComplete (st : State) (task : Api.Task)
    (reply : option Api.Task) : State :=
  match user st with
  | None => st
  | Some _ =>
      match reply with
      | Some updated =>
          setTasks st
            (map (fun t => if Api.id t =? Api.id task then updated else t)
                 (tasks st))
      | None => st
      end
  end.

Definition handleDeleteTask_request (env : Auth.Browser) (st : State)
    (taskId : Z) : option Api.request :=
  match user st with
  | None => None
  | Some u => Some (Api.deleteTask env (Auth.id u) taskId)
  end.

(** [handleDeleteTask]: [done] says whether [deleteTask] resolved. *)
Definition handleDeleteTask (st : State) (taskId : Z) (done : bool) : State :=
  match user st with
  | None => st
  | Some _ =>
      if done then
        setTasks st
          (List.filter (fun t => negb (Api.id t =? taskId)) (tasks st))
      else st
  end.

Definition handleUpdateTask_request (env : Auth.Browser) (st : State)
  : option Api.request :=
  match user st, editingTask st with
  | Some u, Some e =>
      Some (Api.updateTask env (Auth.id u) (Api.id e)
              [("title", Js.Str (Api.title e));
               ("description", Js.Str (Api.description e))])
  | _, _ => None
  end.

Definition handleUpdateTask (st : State) (reply : option Api.Task) : State :=
  match user st, editingTask st with
  | Some _, Some e =>
      match reply with
      | Some updated =>
          {| user := user st;
             tasks := map (fun t => if Api.id t =? Api.id e then updated else t)
                          (tasks st);
             loading := loading st;
             newTaskTitle := newTaskTitle st;
             newTaskDescription := newTaskDescription st;
             editingTask := None; filter := filter st;
             showAddTask := showAddTask st |}
      | None => st
      end
  | _, _ => st
  end.

Definition setFilter (st : State) (f : Filter) : State :=
  {| user := user st; tasks := tasks st; loading := loading st;
     newTaskTitle := newTaskTitle st;
     newTaskDescription := newTaskDescription st;
     editingTask := editingTask st; filter := f;
     showAddTask := showAddTask st |}.

Definition completedCount (st : State) : Z :=
  Z.of_nat (List.length (List.filter Api.completed (tasks st))).

Definition activeCount (st : State) : Z :=
  Z.of_nat (List.length (tasks st)) - completedCount st.

End Dashboard.

(** * Statements *)

(** ** Stripping *)

Lemma lstrip_all_space s : Py.all_space s = true -> Py.lstrip s = "".
Proof.
  induction s as [|c s IH]; simpl; [reflexivity|].
  intros H. apply andb_prop in H as [Hc Hs]. now rewrite Hc; apply IH.
Qed.

Lemma lstrip_not_all_space s :
  Py.all_space s = false ->
  exists c r, Py.lstrip s = String c r /\ Py.isspace c = false.
Proof.
  induction s as [|c s IH]; simpl; [discriminate|].
  destruct (Py.isspace c) eqn:Hc; simpl.
  - exact IH.
  - intros _. now exists c, s.
Qed.

Lemma rstrip_empty s : Py.rstrip s = "" <-> Py.all_space s = true.
Proof.
  induction s as [|c s IH]; simpl; [tauto|].
  destruct (Py.rstrip s) eqn:Hr.
  - destruct (Py.isspace c); simpl.
    + split; intros _; [now apply IH | reflexivity].
    + split; discriminate.
  - split; [discriminate|].
    intros H. apply andb_prop in H as [_ Hs]. now apply IH in Hs.
Qed.

Lemma strip_empty s : Py.strip s = "" <-> Py.all_space s = true.
Proof.
  unfold Py.strip. split.
  - intros H. destruct (Py.all_space s) eqn:Hs; [reflexivity|].
    destruct (lstrip_not_all_space _ Hs) as (c & r & E & Hc).
    rewrite E in H. apply rstrip_empty in H. simpl in H.
    now rewrite Hc in H.
  - intros H. now rewrite (lstrip_all_space _ H).
Qed.

Lemma len_zero s : Py.len s = 0 <-> s = "".
Proof.
  unfold Py.len. destruct s; simpl; split; intros H;
    try reflexivity; try discriminate; lia.
Qed.

Lemma lstrip_length s : (String.length (Py.lstrip s) <= String.length s)%nat.
Proof.
  induction s as [|c s IH]; simpl; [lia|].
  destruct (Py.isspace c); simpl; lia.
Qed.

Lemma rstrip_length s : (String.length (Py.rstrip s) <= String.length s)%nat.
Proof.
  induction s as [|c s IH]; simpl; [lia|].
  destruct (Py.rstrip s); [destruct (Py.isspace c)|]; simpl in *; lia.
Qed.

Lemma strip_len s : Py.len (Py.strip s) <= Py.len s.
Proof.
  unfold Py.len, Py.strip.
  pose proof (rstrip_length (Py.lstrip s)). pose proof (lstrip_length s). lia.
Qed.


(** ** Title validation *)

Lemma validate_title_cases title :
  Store.validate_title title =
    if Py.all_space title then
      Raise (InvalidTaskDataError "Title cannot be empty")
    else if Py.len title >? 200 then
      Raise (InvalidTaskDataError "Title cannot exceed 200 characters")
    else Ok tt.
Proof.
  unfold Store.validate_title.
  destruct (Py.all_space title) eqn:Hs.
  - apply strip_empty in Hs. rewrite Hs. simpl. now rewrite orb_true_r.
  - assert (Hne : Py.strip title <> "").
    { intros E. apply strip_empty in E. congruence. }
    assert (Hf : Py.falsy title = false) by (destruct title; [discriminate|reflexivity]).
    rewrite Hf. simpl.
    destruct (Py.len (Py.strip title) =? 0) eqn:E; [|reflexivity].
    apply Z.eqb_eq, len_zero in E. contradiction.
Qed.


(** C4 (as the code has it): [validate_title] raises exactly when the title
    is empty after stripping or its length as given, before any stripping,
    exceeds 200; the first check wins.  A 200-character title that is not all
    whitespace is accepted, every 201-character title is rejected, and a
    whitespace-only title is rejected as empty; an accepted title has between
    1 and 200 characters once stripped. *)
Theorem validate_title_exact title :
  (Store.validate_title title = Ok tt
     <-> Py.strip title <> "" /\ Py.len title <= 200)
  /\ (Store.validate_title title
        = Raise (InvalidTaskDataError "Title cannot be empty")
     <-> Py.strip title = "")
  /\ (Store.validate_title title
        = Raise (InvalidTaskDataError "Title cannot exceed 200 characters")
     <-> Py.strip title <> "" /\ Py.len title > 200)
  /\ (Py.len title = 200 ->
      Store.validate_title title = Ok tt <-> Py.all_space title = false)
  /\ (Py.len title = 201 -> raises (Store.validate_title title) = true)
  /\ (Py.all_space title = true ->
      Store.validate_title title
        = Raise (InvalidTaskDataError "Title cannot be empty"))
  /\ (Store.validate_title title = Ok tt ->
      1 <= Py.len (Py.strip title) <= 200).
Proof.
  rewrite validate_title_cases.
  pose proof (strip_empty title) as Hs.
  pose proof (strip_len title) as Hle.
  assert (Hz : Py.strip title <> "" -> 1 <= Py.len (Py.strip title)).
  { intros N. destruct (Z.eq_dec (Py.len (Py.strip title)) 0) as [E|E].
    - now apply len_zero in E.
    - unfold Py.len in *. lia. }
  destruct (Py.all_space title) eqn:Ha.
  - assert (E : Py.strip title = "") by now apply Hs.
    repeat split; intros; try discriminate; try reflexivity; tauto.
  - assert (N : Py.strip title <> "").
    { intros E. apply Hs in E. discriminate. }
    specialize (Hz N).
    destruct (Z.gtb_spec (Py.len title) 200) as [Hl|Hl];
      repeat split; intros; try discriminate; try reflexivity;
      try contradiction; try lia; tauto.
Qed.

Lemma validate_title_exact_witness :
  Store.validate_title (Py.times "a" 200) = Ok tt
  /\ raises (Store.validate_title (Py.times "a" 201)) = true
  /\ Store.validate_title "   "
       = Raise (InvalidTaskDataError "Title cannot be empty").
Proof.
  split; [|split].
  - apply (proj2 (proj1 (proj2 (proj2 (proj2
             (validate_title_exact (Py.times "a" 200))))) eq_refl)).
    reflexivity.
  - apply (proj1 (proj2 (proj2 (proj2 (proj2
             (validate_title_exact (Py.times "a" 201)))))) eq_refl).
  - apply (proj1 (proj2 (proj2 (proj2 (proj2 (proj2
             (validate_title_exact "   ")))))) eq_refl).
Defined.

(** C4, as stated, fails: a title of one space followed by 200 letters has
    stripped length exactly 200 and is rejected, because the length test
    reads the title as given. *)
Lemma validate_title_stripped_200_rejected :
  Py.len (Py.strip (String " " (Py.times "a" 200))) = 200
  /\ Store.validate_title (String " " (Py.times "a" 200))
       = Raise (InvalidTaskDataError "Title cannot exceed 200 characters").
Proof. split; vm_compute; reflexivity. Qed.

(** ** The dictionary *)

Section Dict.
Import Store.

Lemma dict_get_set d k v k' :
  dict_get (dict_set d k v) k' = if k =? k' then Some v else dict_get d k'.
Proof.
  induction d as [|[k1 v1] d IH]; simpl.
  - reflexivity.
  - destruct (Z.eqb_spec k1 k) as [->|Hk]; simpl.
    + destruct (Z.eqb_spec k k'); reflexivity.
    + rewrite IH.
      destruct (Z.eqb_spec k1 k'), (Z.eqb_spec k k'); try reflexivity; lia.
Qed.

Lemma dict_keys_set_present d k v t :
  dict_get d k = Some t -> dict_keys (dict_set d k v) = dict_keys d.
Proof.
  induction d as [|[k1 v1] d IH]; simpl; [discriminate|].
  destruct (Z.eqb_spec k1 k) as [->|Hk]; simpl.
  - reflexivity.
  - intros H. unfold dict_keys in *. simpl. now rewrite IH.
Qed.

Lemma dict_set_fresh d k v :
  Forall (fun kv => fst kv < k) d -> dict_set d k v = (d ++ [(k, v)])%list.
Proof.
  induction 1 as [|[k1 v1] d Hlt _ IH]; simpl in *; [reflexivity|].
  destruct (Z.eqb_spec k1 k); [lia|]. now rewrite IH.
Qed.

Lemma dict_get_fresh d k :
  Forall (fun kv => fst kv < k) d -> dict_get d k = None.
Proof.
  induction 1 as [|[k1 v1] d Hlt _ IH]; simpl in *; [reflexivity|].
  destruct (Z.eqb_spec k1 k); [lia|assumption].
Qed.

Lemma dict_set_Forall (P : Z * Task -> Prop) d k v :
  Forall P d -> P (k, v) -> Forall P (dict_set d k v).
Proof.
  induction 1 as [|[k1 v1] d Hp Hd IH]; simpl; intros Hv.
  - now constructor.
  - destruct (k1 =? k); constructor; auto.
Qed.

Lemma dict_del_Forall (P : Z * Task -> Prop) d k :
  Forall P d -> Forall P (dict_del d k).
Proof.
  induction 1 as [|[k1 v1] d Hp Hd IH]; simpl; [constructor|].
  destruct (k1 =? k); [assumption|now constructor].
Qed.

Lemma dict_get_In d k t : dict_get d k = Some t -> In (k, t) d.
Proof.
  induction d as [|[k1 v1] d IH]; simpl; [discriminate|].
  destruct (Z.eqb_spec k1 k) as [->|Hk]; intros H.
  - left. congruence.
  - right. auto.
Qed.

Lemma dict_get_above d k :
  Forall (Z.lt k) (dict_keys d) -> dict_get d k = None.
Proof.
  induction d as [|[k1 v1] d IH]; simpl; [reflexivity|].
  intros H. inversion H as [|? ? Hlt Hd]; subst.
  destruct (Z.eqb_spec k1 k); [lia|auto].
Qed.

Lemma dict_In_get d k t :
  StronglySorted Z.lt (dict_keys d) -> In (k, t) d -> dict_get d k = Some t.
Proof.
  induction d as [|[k1 v1] d IH]; simpl; [contradiction|].
  intros Hs [E|Hin]; inversion Hs as [|? ? Hs' Hall]; subst.
  - inversion E; subst. now rewrite Z.eqb_refl.
  - destruct (Z.eqb_spec k1 k) as [->|Hk]; [|auto].
    rewrite Forall_forall in Hall.
    assert (k < k) by (apply Hall; change k with (fst (k, t)); now apply in_map).
    lia.
Qed.

Lemma dict_del_keys_sorted d k :
  StronglySorted Z.lt (dict_keys d) ->
  StronglySorted Z.lt (dict_keys (dict_del d k)).
Proof.
  induction d as [|[k1 v1] d IH]; simpl; [constructor|].
  intros Hs. inversion Hs as [|? ? Hs' Hall]; subst.
  destruct (k1 =? k); simpl; [assumption|].
  constructor; [auto|].
  rewrite Forall_forall in *. intros x Hx. apply Hall.
  clear - Hx. induction d as [|[k2 v2] d IHd]; simpl in *; [contradiction|].
  destruct (k2 =? k); simpl in *; [now right|].
  destruct Hx; [now left|right; auto].
Qed.

Lemma dict_get_del d k k' :
  StronglySorted Z.lt (dict_keys d) ->
  dict_get (dict_del d k) k' = if k =? k' then None else dict_get d k'.
Proof.
  induction d as [|[k1 v1] d IH]; simpl; intros Hs.
  - now destruct (k =? k').
  - inversion Hs as [|? ? Hs' Hall]; subst.
    destruct (Z.eqb_spec k1 k) as [E|Hk]; simpl.
    + subst k1. destruct (Z.eqb_spec k k') as [E'|Hk']; [|reflexivity].
      apply dict_get_above. congruence.
    + rewrite (IH Hs').
      destruct (Z.eqb_spec k1 k'), (Z.eqb_spec k k'); try reflexivity; lia.
Qed.


Lemma dict_del_length d k t :
  dict_get d k = Some t -> S (List.length (dict_del d k)) = List.length d.
Proof.
  induction d as [|[k1 v1] d IH]; simpl; [discriminate|].
  destruct (k1 =? k); [reflexivity|]. intros H. simpl. now rewrite IH.
Qed.

End Dict.

(** ** Store invariants *)

Section StoreInvariants.
Import Store.

Lemma wf_init : wf __init__.
Proof. split; constructor. Qed.

Lemma keys_below_last d n :
  Forall (fun kv : Z * Task => fst kv < n) d -> Forall (fun k => k < n) (dict_keys d).
Proof. induction 1; simpl; constructor; auto. Qed.

Lemma sorted_snoc l n :
  StronglySorted Z.lt l -> Forall (fun k => k < n) l ->
  StronglySorted Z.lt (l ++ [n]).
Proof.
  induction 1 as [|a l Hs IH Ha]; simpl; intros Hn.
  - repeat constructor.
  - inversion Hn; subst. constructor; [auto|].
    apply Forall_app. split; [assumption|]. now repeat constructor.
Qed.

Lemma wf_weaken d n m :
  n <= m ->
  Forall (fun kv : Z * Task => fst kv = id (snd kv) /\ fst kv < n) d ->
  Forall (fun kv : Z * Task => fst kv = id (snd kv) /\ fst kv < m) d.
Proof.
  intros Hnm H. eapply Forall_impl; [|exact H]. simpl. intros ? []. split; lia.
Qed.

Lemma wf_create self now t d : wf self -> wf (snd (create self now t d)).
Proof.
  intros [Hs Hf]. unfold create, _generate_id. simpl.
  assert (Hlt : Forall (fun kv : Z * Task => fst kv < _next_id self) (_tasks self)).
  { eapply Forall_impl; [|exact Hf]. simpl. tauto. }
  rewrite (dict_set_fresh _ _ _ Hlt). split; simpl.
  - unfold dict_keys. rewrite map_app. simpl.
    apply sorted_snoc; [assumption|]. now apply keys_below_last.
  - apply Forall_app. split.
    + apply wf_weaken with (n := _next_id self); [lia|assumption].
    + repeat constructor; simpl; lia.
Qed.

Lemma wf_entry self k t : wf self -> get self k = Some t -> id t = k /\ k < _next_id self.
Proof.
  intros [_ Hf] Hg. apply dict_get_In in Hg.
  rewrite Forall_forall in Hf. destruct (Hf _ Hg) as [E Hlt]. simpl in *.
  split; [congruence|assumption].
Qed.

Lemma wf_replace self k old new :
  wf self -> get self k = Some old -> id new = id old ->
  wf {| _tasks := dict_set (_tasks self) k new; _next_id := _next_id self |}.
Proof.
  intros Hwf Hg Hid. destruct (wf_entry _ _ _ Hwf Hg) as [E Hlt].
  destruct Hwf as [Hs Hf]. split; simpl.
  - now rewrite (dict_keys_set_present _ _ _ _ Hg).
  - apply dict_set_Forall; [assumption|]. simpl. split; [congruence|assumption].
Qed.

Lemma wf_step self c : wf self -> wf (step self c).
Proof.
  intros Hwf. destruct c as [now t d| | |now i t d|i|now i]; simpl;
    try assumption.
  - now apply wf_create.
  - unfold update. destruct (dict_get (_tasks self) i) as [old|] eqn:Hg;
      [|assumption].
    now apply wf_replace with (old := old).
  - unfold delete. destruct (dict_contains (_tasks self) i); [|assumption].
    destruct Hwf as [Hs Hf]. split; simpl.
    + now apply dict_del_keys_sorted.
    + now apply dict_del_Forall.
  - unfold toggle_completion.
    destruct (dict_get (_tasks self) i) as [old|] eqn:Hg; [|assumption].
    now apply wf_replace with (old := old).
Qed.

Lemma wf_run cs : forall self, wf self -> wf (run self cs).
Proof.
  induction cs as [|c cs IH]; intros self Hwf; simpl; [assumption|].
  apply IH. now apply wf_step.
Qed.

Lemma next_id_step self c : _next_id self <= _next_id (step self c).
Proof.
  destruct c as [now t d| | |now i t d|i|now i]; simpl; try lia.
  - unfold update. destruct (dict_get (_tasks self) i); simpl; lia.
  - unfold delete. destruct (dict_contains (_tasks self) i); simpl; lia.
  - unfold toggle_completion. destruct (dict_get (_tasks self) i); simpl; lia.
Qed.

Lemma next_id_run cs : forall self, _next_id self <= _next_id (run self cs).
Proof.
  induction cs as [|c cs IH]; intros self; simpl; [lia|].
  pose proof (next_id_step self c). pose proof (IH (step self c)). lia.
Qed.

(** Every id a session issued lies between the counter it started from and
    the counter it ended with. *)
Lemma issued_bounds cs : forall self,
  Forall (fun i => _next_id self <= i < _next_id (run self cs)) (issued self cs).
Proof.
  induction cs as [|c cs IH]; intros self; simpl; [constructor|].
  pose proof (next_id_step self c) as Hstep.
  pose proof (next_id_run cs (step self c)) as Hrun.
  apply Forall_app. split.
  - destruct c; try constructor; [|constructor].
    simpl in *. lia.
  - eapply Forall_impl; [|apply IH]. simpl. intros. lia.
Qed.

(** Ids are issued in strictly ascending order: no id is issued twice. *)
Lemma issued_sorted cs : forall self, StronglySorted Z.lt (issued self cs).
Proof.
  induction cs as [|c cs IH]; intros self; simpl; [constructor|].
  destruct c; simpl; try apply IH.
  constructor; [apply IH|].
  eapply Forall_impl; [|apply issued_bounds]. simpl. intros. lia.
Qed.

Lemma get_all_ascending self : wf self -> ascending (get_all self).
Proof.
  intros [Hs Hf]. unfold get_all, ascending.
  induction (_tasks self) as [|[k v] d IH]; simpl in *; [constructor|].
  inversion Hs as [|? ? Hs' Hall]; inversion Hf as [|? ? [Hk _] Hf']; subst.
  simpl in *. constructor; [auto|].
  rewrite Forall_forall in *. intros t Ht.
  apply in_map_iff in Ht as ([k' t'] & E & Hin). simpl in E. subst t'.
  destruct (Hf' _ Hin) as [E _]. simpl in E. rewrite <- E, <- Hk.
  apply Hall. change k' with (fst (k', t)). now apply in_map.
Qed.

Lemma get_all_complete self k t :
  get self k = Some t -> In t (get_all self).
Proof.
  intros Hg. apply dict_get_In in Hg.
  change t with (snd (k, t)). now apply in_map.
Qed.

Lemma get_all_sound self t :
  wf self -> In t (get_all self) -> get self (id t) = Some t.
Proof.
  intros [Hs Hf] Hin. apply in_map_iff in Hin as ([k t'] & E & Hin).
  simpl in E. subst t'. rewrite Forall_forall in Hf.
  destruct (Hf _ Hin) as [E _]. simpl in E. subst k.
  now apply dict_In_get.
Qed.

End StoreInvariants.

(** ** Store operations *)

Section StoreClaims.
Import Store.

Lemma create_id self now t d : id (fst (create self now t d)) = _next_id self.
Proof. reflexivity. Qed.

Lemma wf_next_fresh self : wf self -> get self (_next_id self) = None.
Proof.
  intros [_ Hf]. apply dict_get_fresh.
  eapply Forall_impl; [|exact Hf]. simpl. tauto.
Qed.

(** C3: for every valid (title, description) pair and every store a session
    has produced, [create] returns a task that is not completed, whose two
    timestamps are equal, and whose id is positive, was issued by no earlier
    [create] of the session (whether or not that task has been deleted since)
    and names no task currently stored; afterwards the id names the new
    task. *)
Theorem create_returns_fresh_task cs now title description :
  validate_title title = Ok tt ->
  validate_description description = Ok tt ->
  let self := run __init__ cs in
  let task := fst (create self now title description) in
  let self' := snd (create self now title description) in
  completed task = false
  /\ created_at task = updated_at task
  /\ 0 < id task
  /\ ~ In (id task) (issued __init__ cs)
  /\ get self (id task) = None
  /\ get self' (id task) = Some task.
Proof.
  intros _ _ self task self'.
  assert (Hwf : wf self) by (apply wf_run, wf_init).
  repeat split.
  - pose proof (next_id_run cs __init__). subst task. rewrite create_id.
    fold self in H. simpl in H. lia.
  - intros Hin. pose proof (issued_bounds cs __init__) as Hb.
    rewrite Forall_forall in Hb. apply Hb in Hin.
    subst task. rewrite create_id in Hin. fold self in Hin. lia.
  - now apply wf_next_fresh.
  - subst self' task. unfold get, create, _generate_id. simpl.
    rewrite dict_get_set. now rewrite Z.eqb_refl.
Qed.

Lemma create_returns_fresh_task_witness :
  let cs := [Create 10 "Buy groceries" "Milk, eggs"; Delete 1] in
  let self := run __init__ cs in
  let task := fst (create self 20 "Call mom" "") in
  id task = 2 /\ ~ In (id task) (issued __init__ cs)
  /\ completed task = false /\ created_at task = updated_at task.
Proof.
  intros cs self task.
  pose proof (create_returns_fresh_task cs 20 "Call mom" "" eq_refl eq_refl)
    as (Hc & Ht & _ & Hfresh & _).
  split; [reflexivity|]. split; [exact Hfresh|]. split; [exact Hc|exact Ht].
Defined.

(** C5 (as the code has it): a successful [update] changes only title,
    description and [updated_at]: it keeps id, completed and [created_at]
    (the record carries no owner), stores the stripped title and description,
    leaves every other task and the id counter alone, and sets [updated_at]
    to the clock reading of the call, so [updated_at] strictly increases
    exactly when that reading is later than the previous [updated_at]. *)
Theorem update_frame self now task_id title description old :
  get self task_id = Some old ->
  exists task' self',
    update self now task_id title description = Ok (task', self')
    /\ id task' = id old
    /\ completed task' = completed old
    /\ created_at task' = created_at old
    /\ Store.title task' = Py.strip title
    /\ Store.description task' = Py.strip description
    /\ updated_at task' = now
    /\ (updated_at old < updated_at task' <-> updated_at old < now)
    /\ get self' task_id = Some task'
    /\ (forall k, k <> task_id -> get self' k = get self k)
    /\ _next_id self' = _next_id self.
Proof.
  intros Hg. unfold update. unfold get in Hg. rewrite Hg.
  eexists _, _. split; [reflexivity|]. simpl.
  repeat split; try tauto.
  - unfold get. simpl. rewrite dict_get_set. now rewrite Z.eqb_refl.
  - intros k Hk. unfold get. simpl. rewrite dict_get_set.
    destruct (Z.eqb_spec task_id k); [congruence|reflexivity].
Qed.

Lemma update_frame_witness :
  exists task' self',
    update (snd (create __init__ 100 "Buy groceries" "Milk, eggs")) 250 1
           " Buy groceries and fruits " "Milk, eggs, apples"
      = Ok (task', self')
    /\ id task' = 1 /\ completed task' = false /\ created_at task' = 100
    /\ Store.title task' = "Buy groceries and fruits"
    /\ updated_at task' = 250.
Proof.
  destruct (update_frame (snd (create __init__ 100 "Buy groceries" "Milk, eggs"))
              250 1 " Buy groceries and fruits " "Milk, eggs, apples"
              (fst (create __init__ 100 "Buy groceries" "Milk, eggs")) eq_refl)
    as (task' & self' & Hu & Hid & Hc & Hcr & Ht & _ & Hup & _).
  exists task', self'. repeat split; assumption.
Defined.

(** C5, as stated, fails: [updated_at] is overwritten with the clock reading
    of the call, whatever it is.  An update that reads the same instant as
    the creation leaves [updated_at] where it was. *)
Lemma update_same_reading_not_strict :
  exists old task' self',
    get (snd (create __init__ 100 "Buy groceries" "Milk, eggs")) 1 = Some old
    /\ update (snd (create __init__ 100 "Buy groceries" "Milk, eggs")) 100 1
              "Buy fruit" "Apples" = Ok (task', self')
    /\ updated_at task' = updated_at old
    /\ (updated_at old <? updated_at task') = false.
Proof. eexists _, _, _. repeat split. Qed.

(** C1 (as the code has it): on a stored task the completion operation
    succeeds twice in succession; it takes no requested value and flips
    [completed] on each call, so the first call negates it and the second
    restores it; each call sets [updated_at] to its clock reading, keeps id,
    title, description and [created_at], stores the task it returns, and
    leaves every other task alone. *)
Theorem toggle_completion_twice self now1 now2 task_id task :
  get self task_id = Some task ->
  exists t1 s1 t2 s2,
    toggle_completion self now1 task_id = Ok (t1, s1)
    /\ toggle_completion s1 now2 task_id = Ok (t2, s2)
    /\ completed t1 = negb (completed task)
    /\ completed t2 = completed task
    /\ updated_at t1 = now1 /\ updated_at t2 = now2
    /\ id t2 = id task /\ Store.title t2 = Store.title task
    /\ Store.description t2 = Store.description task
    /\ created_at t2 = created_at task
    /\ get s2 task_id = Some t2
    /\ id t1 = id task /\ Store.title t1 = Store.title task
    /\ Store.description t1 = Store.description task
    /\ created_at t1 = created_at task
    /\ get s1 task_id = Some t1
    /\ (forall k, k <> task_id ->
          get s1 k = get self k /\ get s2 k = get self k).
Proof.
  intros Hg. unfold get in Hg.
  pose (t1 := {| id := id task; title := Store.title task;
                 description := Store.description task;
                 completed := negb (completed task);
                 created_at := created_at task; updated_at := now1 |}).
  pose (s1 := {| _tasks := dict_set (_tasks self) task_id t1;
                 _next_id := _next_id self |}).
  assert (H1 : toggle_completion self now1 task_id = Ok (t1, s1)).
  { unfold toggle_completion. now rewrite Hg. }
  assert (Hg1 : dict_get (_tasks s1) task_id = Some t1).
  { simpl. rewrite dict_get_set. now rewrite Z.eqb_refl. }
  exists t1, s1. unfold toggle_completion at 2. rewrite Hg1.
  eexists _, _. split; [exact H1|]. split; [reflexivity|]. simpl.
  repeat split.
  - apply negb_involutive.
  - unfold get. simpl. rewrite dict_get_set. now rewrite Z.eqb_refl.
  - exact Hg1.
  - unfold get. simpl. rewrite dict_get_set.
    destruct (Z.eqb_spec task_id k); [congruence|reflexivity].
  - unfold get. simpl. rewrite !dict_get_set.
    destruct (Z.eqb_spec task_id k); [congruence|reflexivity].
Qed.

Lemma toggle_completion_twice_witness :
  exists t1 s1 t2 s2,
    toggle_completion (snd (create __init__ 100 "Call mom" "")) 101 1
      = Ok (t1, s1)
    /\ toggle_completion s1 102 1 = Ok (t2, s2)
    /\ completed t1 = true /\ completed t2 = false /\ updated_at t2 = 102.
Proof.
  destruct (toggle_completion_twice (snd (create __init__ 100 "Call mom" ""))
              101 102 1 (fst (create __init__ 100 "Call mom" "")) eq_refl)
    as (t1 & s1 & t2 & s2 & H1 & H2 & Hc1 & Hc2 & _ & Hu2 & _).
  exists t1, s1, t2, s2. repeat split; assumption.
Defined.

(** C1, as stated, fails: on a freshly created task the first call sets
    [completed] and the second call, made with the same intent, clears it
    again. *)
Lemma toggle_twice_clears_completed :
  exists t1 s1 t2 s2,
    toggle_completion (snd (create __init__ 100 "Buy groceries" "")) 101 1
      = Ok (t1, s1)
    /\ toggle_completion s1 102 1 = Ok (t2, s2)
    /\ completed t1 = true
    /\ completed t2 = false
    /\ option_map completed (get s2 1) = Some false.
Proof. eexists _, _, _, _. repeat split. Qed.

End StoreClaims.

(** ** Listing and deleting *)

Section StoreListing.
Import Store.

Lemma dict_set_keys_incl d k v x :
  In x (dict_keys (dict_set d k v)) -> In x (dict_keys d) \/ x = k.
Proof.
  induction d as [|[k1 v1] d IH]; simpl.
  - intros [E|[]]. now right.
  - destruct (Z.eqb_spec k1 k); simpl; intros [E|Hin]; auto.
    destruct (IH Hin); auto.
Qed.

Lemma dict_del_keys_incl d k x :
  In x (dict_keys (dict_del d k)) -> In x (dict_keys d).
Proof.
  induction d as [|[k1 v1] d IH]; simpl; [tauto|].
  destruct (k1 =? k); simpl; [now right|]. intros [E|Hin]; auto.
Qed.

Lemma dict_get_key d k t : dict_get d k = Some t -> In k (dict_keys d).
Proof.
  intros H. apply dict_get_In in H. change k with (fst (k, t)).
  now apply in_map.
Qed.

Lemma stored_step self c x :
  In x (dict_keys (_tasks (step self c))) ->
  In x (dict_keys (_tasks self)) \/ In x (issued self [c]).
Proof.
  destruct c as [now t d| | |now i t d|i|now i]; simpl; auto.
  - intros H. apply dict_set_keys_incl in H as [H|H]; auto.
  - unfold update. destruct (dict_get (_tasks self) i) eqn:Hg; simpl; auto.
    intros H. apply dict_set_keys_incl in H as [H| ->]; auto.
    left. eapply dict_get_key; eassumption.
  - unfold delete. destruct (dict_contains (_tasks self) i); simpl; auto.
    intros H. left. eapply dict_del_keys_incl; eassumption.
  - unfold toggle_completion.
    destruct (dict_get (_tasks self) i) eqn:Hg; simpl; auto.
    intros H. apply dict_set_keys_incl in H as [H| ->]; auto.
    left. eapply dict_get_key; eassumption.
Qed.

Lemma issued_cons self c cs :
  issued self (c :: cs) = (issued self [c] ++ issued (step self c) cs)%list.
Proof. simpl. now rewrite app_nil_r. Qed.

(** Every stored task was there at the start or was created in the session. *)
Lemma stored_were_issued cs : forall self x,
  In x (dict_keys (_tasks (run self cs))) ->
  In x (dict_keys (_tasks self)) \/ In x (issued self cs).
Proof.
  induction cs as [|c cs IH]; intros self x; [simpl; auto|].
  intros H. rewrite issued_cons. simpl in H.
  destruct (IH _ _ H) as [H'|H'].
  - destruct (stored_step _ _ _ H'); auto. right. apply in_or_app. auto.
  - right. apply in_or_app. auto.
Qed.

(** *** Creation times *)

Lemma dict_set_stamps d k old new :
  dict_get d k = Some old -> created_at new = created_at old ->
  map created_at (dict_values (dict_set d k new))
  = map created_at (dict_values d).
Proof.
  induction d as [|[k1 v1] d IH]; simpl; [discriminate|].
  destruct (k1 =? k); simpl; intros Hg Hc.
  - inversion Hg; subst. now rewrite Hc.
  - f_equal. now apply IH.
Qed.

Lemma dict_del_stamps_sorted d k :
  StronglySorted Z.le (map created_at (dict_values d)) ->
  StronglySorted Z.le (map created_at (dict_values (dict_del d k))).
Proof.
  induction d as [|[k1 v1] d IH]; simpl; [constructor|].
  intros Hs. inversion Hs as [|? ? Hs' Hall]; subst.
  destruct (k1 =? k); simpl; [assumption|].
  constructor; [auto|].
  rewrite Forall_forall in *. intros x Hx. apply Hall.
  clear - Hx. induction d as [|[k2 v2] d IHd]; simpl in *; [contradiction|].
  destruct (k2 =? k); simpl in *; [now right|].
  destruct Hx; [now left|right; auto].
Qed.

Lemma dict_del_stamps_bound d k b :
  Forall (fun x => x <= b) (map created_at (dict_values d)) ->
  Forall (fun x => x <= b) (map created_at (dict_values (dict_del d k))).
Proof.
  induction d as [|[k1 v1] d IH]; simpl; [constructor|].
  intros H. inversion H; subst.
  destruct (k1 =? k); simpl; [assumption|]. constructor; auto.
Qed.

Lemma sorted_le_snoc l n :
  StronglySorted Z.le l -> Forall (fun x => x <= n) l ->
  StronglySorted Z.le (l ++ [n]).
Proof.
  induction 1 as [|a l Hs IH Ha]; simpl; intros Hn.
  - repeat constructor.
  - inversion Hn; subst. constructor; [auto|].
    apply Forall_app. split; [assumption|]. now repeat constructor.
Qed.

(** With a clock that never runs backwards, tasks stay listed by ascending
    creation time. *)
Lemma stamps_sorted cs : forall self b,
  wf self ->
  StronglySorted Z.le (stamps self) ->
  Forall (fun x => x <= b) (stamps self) ->
  Forall (fun x => b <= x) (clock cs) ->
  StronglySorted Z.le (clock cs) ->
  StronglySorted Z.le (stamps (run self cs)).
Proof.
  induction cs as [|c cs IH]; intros self b Hwf Hs Hb Hc Hcs; [assumption|].
  assert (Hwf' : wf (step self c)) by now apply wf_step.
  destruct c as [now t d| | |now i t d|i|now i]; simpl in Hc, Hcs |- *.
  - inversion Hc; inversion Hcs; subst.
    apply IH with (b := now); auto.
    + destruct Hwf as [_ Hf]. unfold stamps, get_all, create, _generate_id.
      simpl. rewrite dict_set_fresh
        by (eapply Forall_impl; [|exact Hf]; simpl; tauto).
      unfold dict_values. rewrite !map_app. simpl.
      apply sorted_le_snoc; [exact Hs|].
      eapply Forall_impl; [|exact Hb]. simpl. intros. lia.
    + destruct Hwf as [_ Hf]. unfold stamps, get_all, create, _generate_id.
      simpl. rewrite dict_set_fresh
        by (eapply Forall_impl; [|exact Hf]; simpl; tauto).
      unfold dict_values. rewrite !map_app. simpl.
      apply Forall_app. split.
      * eapply Forall_impl; [|exact Hb]. simpl. intros. lia.
      * repeat constructor. lia.
  - apply IH with (b := b); auto.
  - apply IH with (b := b); auto.
  - inversion Hc; inversion Hcs; subst.
    assert (E : stamps (step self (Update now i t d)) = stamps self).
    { simpl. unfold update.
      destruct (dict_get (_tasks self) i) as [old|] eqn:Hg; [|reflexivity].
      unfold stamps, get_all. simpl. now apply dict_set_stamps with (old := old). }
    apply IH with (b := b); auto; try (simpl in E; rewrite E; assumption).
  - assert (Hd : StronglySorted Z.le (stamps (step self (Delete i)))
                 /\ Forall (fun x => x <= b) (stamps (step self (Delete i)))).
    { simpl. unfold delete. destruct (dict_contains (_tasks self) i); simpl;
        [|split; assumption].
      split; [now apply dict_del_stamps_sorted|now apply dict_del_stamps_bound]. }
    destruct Hd. apply IH with (b := b); auto.
  - inversion Hc; inversion Hcs; subst.
    assert (E : stamps (step self (ToggleCompletion now i)) = stamps self).
    { simpl. unfold toggle_completion.
      destruct (dict_get (_tasks self) i) as [old|] eqn:Hg; [|reflexivity].
      unfold stamps, get_all. simpl. now apply dict_set_stamps with (old := old). }
    apply IH with (b := b); auto; try (simpl in E; rewrite E; assumption).
Qed.

End StoreListing.

Section StoreListingClaims.
Import Store.

(** C8: after any session, [get_all] returns every stored task and nothing
    else, in insertion order: ids, which the session issued in ascending
    order of creation, ascend strictly along the list, and when the clock
    never ran backwards the creation times ascend along it as well. *)
Theorem get_all_creation_order cs :
  let self := run __init__ cs in
  (forall k t, get self k = Some t -> In t (get_all self))
  /\ (forall t, In t (get_all self) ->
        get self (id t) = Some t /\ In (id t) (issued __init__ cs))
  /\ ascending (get_all self)
  /\ StronglySorted Z.lt (issued __init__ cs)
  /\ (StronglySorted Z.le (clock cs) ->
      StronglySorted Z.le (map created_at (get_all self))).
Proof.
  intros self.
  assert (Hwf : wf self) by (apply wf_run, wf_init).
  split; [|split; [|split; [|split]]].
  - intros k t. apply get_all_complete.
  - intros t Hin. pose proof (get_all_sound _ _ Hwf Hin) as Hg.
    split; [assumption|].
    apply dict_get_key in Hg.
    destruct (stored_were_issued cs __init__ _ Hg) as [[]|H]. exact H.
  - now apply get_all_ascending.
  - apply issued_sorted.
  - intros Hc.
    assert (Hb : exists b, Forall (fun x => b <= x) (clock cs)).
    { destruct (clock cs) as [|b l]; [exists 0; constructor|].
      exists b. inversion Hc; subst. constructor; [lia|].
      eapply Forall_impl; [|eassumption]. simpl; intros; lia. }
    destruct Hb as [b Hb].
    apply (stamps_sorted cs __init__ b wf_init);
      [constructor|constructor|exact Hb|exact Hc].
Qed.

(** C6: [delete] is total, so it never raises.  After any session it returns
    [false] and leaves the store as it is exactly when no task is stored
    under the id (never created, or deleted before), and otherwise returns
    [true] and removes that one task; the boolean says whether a row went
    away, and deleting again returns [false]. *)
Theorem delete_reports_removal cs task_id :
  let self := run __init__ cs in
  let removed := fst (delete self task_id) in
  let self' := snd (delete self task_id) in
  (removed = false <-> get self task_id = None)
  /\ (removed = true <-> exists t, get self task_id = Some t)
  /\ (removed = false -> self' = self)
  /\ get self' task_id = None
  /\ (forall k, k <> task_id -> get self' k = get self k)
  /\ List.length (get_all self)
     = (List.length (get_all self') + if removed then 1 else 0)%nat
  /\ delete self' task_id = (false, self').
Proof.
  intros self removed self'.
  assert (Hwf : wf self) by (apply wf_run, wf_init).
  destruct Hwf as [Hs Hf].
  subst removed self'. unfold delete, dict_contains, get, get_all, dict_values.
  destruct (dict_get (_tasks self) task_id) as [t|] eqn:Hg; simpl.
  - rewrite (dict_get_del _ _ _ Hs), Z.eqb_refl.
    repeat split; try discriminate; eauto.
    + intros k Hk. rewrite (dict_get_del _ _ _ Hs).
      destruct (Z.eqb_spec task_id k); [congruence|reflexivity].
    + rewrite !length_map. rewrite <- (dict_del_length _ _ _ Hg). lia.
  - rewrite Hg.
    repeat split; try discriminate; try reflexivity; try lia.
    intros [t Ht]. discriminate.
Qed.

End StoreListingClaims.

(** ** The owner-scoped core *)

Section CoreInvariants.
Import Core.

















End CoreInvariants.

Section CoreClaims.
Import Core.




(** The [update_task] of the constitution checks the title first: a blank
    title is reported before the store is consulted, whatever the
    description and whether or not the task exists. *)
Lemma pattern_blank_title_first storage now task_id title description :
  Py.strip title = "" ->
  Pattern.update_task storage now task_id title description
  = Raise (InvalidTaskDataError "Title cannot be empty").
Proof.
  intros H. unfold Pattern.update_task. rewrite H. simpl.
  now rewrite orb_true_r.
Qed.

(** C9: the [update_task] of the constitution tests the title for blankness
    only and the description not at all.  For a stored task, a title of more
    than 200 characters and a description of more than 1000 characters, each
    rejected by its validator, it reports no title error: it raises nothing
    and stores the stripped title and description. *)
Theorem update_task_skips_length_checks storage now k old title description :
  Store.get storage k = Some old ->
  200 < Py.len title -> Py.strip title <> "" ->
  1000 < Py.len description ->
  Store.validate_title title
    = Raise (InvalidTaskDataError "Title cannot exceed 200 characters")
  /\ Store.validate_description description
     = Raise (InvalidTaskDataError "Description cannot exceed 1000 characters")
  /\ exists task' storage',
       Pattern.update_task storage now k title description
       = Ok (task', storage')
       /\ Store.get storage' k = Some task'
       /\ Store.title task' = Py.strip title
       /\ Store.description task' = Py.strip description.
Proof.
  intros Hg Ht Hne Hd. split; [|split].
  - rewrite validate_title_cases.
    destruct (Py.all_space title) eqn:Hs.
    + apply strip_empty in Hs. contradiction.
    + destruct (Z.gtb_spec (Py.len title) 200); [reflexivity|lia].
  - unfold Store.validate_description.
    destruct (Z.gtb_spec (Py.len description) 1000); [reflexivity|lia].
  - unfold Pattern.update_task.
    assert (Hf : Py.falsy title = false).
    { destruct title; [now elim Hne|reflexivity]. }
    rewrite Hf. simpl.
    destruct (Z.eqb_spec (Py.len (Py.strip title)) 0) as [E|_].
    { now apply len_zero in E. }
    rewrite Hg. unfold Store.update. unfold Store.get in Hg. rewrite Hg.
    eexists _, _. split; [reflexivity|]. simpl. repeat split.
    unfold Store.get. simpl. rewrite dict_get_set. now rewrite Z.eqb_refl.
Qed.

Lemma update_task_skips_length_checks_witness :
  exists task' storage',
    Pattern.update_task
      (snd (Store.create Store.__init__ 10 "Buy groceries" "Milk, eggs"))
      11 1 (Py.times "t" 201) (Py.times "x" 1001)
    = Ok (task', storage')
    /\ Store.title task' = Py.times "t" 201
    /\ Store.description task' = Py.times "x" 1001.
Proof.
  assert (Hne : Py.strip (Py.times "t" 201) <> "") by (vm_compute; discriminate).
  destruct (update_task_skips_length_checks
              (snd (Store.create Store.__init__ 10 "Buy groceries" "Milk, eggs"))
              11 1
              (fst (Store.create Store.__init__ 10 "Buy groceries" "Milk, eggs"))
              (Py.times "t" 201) (Py.times "x" 1001)
              eq_refl eq_refl Hne eq_refl)
    as (_ & _ & task' & storage' & Hu & _ & Ht & Hd).
  exists task', storage'. split; [exact Hu|]. split.
  - rewrite Ht. vm_compute. reflexivity.
  - rewrite Hd. vm_compute. reflexivity.
Defined.

End CoreClaims.

(** ** The client's requests *)

Section ClientClaims.

Lemma substring_all s : substring 0 (String.length s) s = s.
Proof. induction s as [|c s IH]; simpl; [reflexivity|]. now rewrite IH. Qed.


Lemma bearer_of_header token :
  (if prefix "Bearer " ("Bearer " ++ token)
   then Some (substring 7 (String.length ("Bearer " ++ token) - 7)
                        ("Bearer " ++ token))
   else None) = Some token.
Proof.
  simpl. rewrite Nat.sub_0_r, substring_all.
  now destruct token.
Qed.

Lemma issue_headers env op : Api.hdrs (Api.issue env op) = Api.getAuthHeaders env.
Proof. now destruct op. Qed.

(** C7 (as the code has it): each operation of the API client, the chat
    operation included, takes its headers from [getAuthHeaders]: when a
    non-empty token is stored (and [window] is defined) the request carries
    [Authorization: Bearer <token>] and nothing else, and when none is stored
    the request carries no header at all. *)
Theorem api_requests_carry_stored_token env op :
  (forall token,
      Auth.getToken env = Some token -> Js.truthy token = true ->
      Api.hdrs (Api.issue env op) = [("Authorization", "Bearer " ++ token)]
      /\ Api.bearer (Api.issue env op) = Some token)
  /\ (Auth.getToken env = None \/ Auth.getToken env = Some "" ->
      Api.hdrs (Api.issue env op) = []
      /\ Api.bearer (Api.issue env op) = None).
Proof.
  unfold Api.bearer. rewrite issue_headers. unfold Api.getAuthHeaders.
  split.
  - intros token Ht Hne. rewrite Ht, Hne. split; [reflexivity|].
    cbn [Api.header String.eqb Ascii.eqb Bool.eqb]. simpl String.eqb.
    apply bearer_of_header.
  - intros [H|H]; rewrite H; now split.
Qed.

Lemma api_requests_carry_stored_token_witness :
  Api.hdrs (Api.issue {| Auth.window := true; Auth.token := Some "abc";
                         Auth.NEXT_PUBLIC_API_URL := None |}
                      (Api.ToggleTaskCompletion "u1" 7 true))
    = [("Authorization", "Bearer abc")]
  /\ Api.url (Api.issue {| Auth.window := true; Auth.token := Some "abc";
                           Auth.NEXT_PUBLIC_API_URL := None |}
                        (Api.ToggleTaskCompletion "u1" 7 true))
     = "http://localhost:8000/api/u1/tasks/7/complete".
Proof.
  split; [|reflexivity].
  apply (proj1 (api_requests_carry_stored_token
                  {| Auth.window := true; Auth.token := Some "abc";
                     Auth.NEXT_PUBLIC_API_URL := None |}
                  (Api.ToggleTaskCompletion "u1" 7 true)) "abc" eq_refl eq_refl).
Defined.

(** C7, as stated, fails: with no token stored the task API is called with
    no [Authorization] header, and the chat widget's own request never has
    one, token or not. *)
Lemma requests_without_bearer :
  Api.hdrs (Api.issue {| Auth.window := true; Auth.token := None;
                         Auth.NEXT_PUBLIC_API_URL := None |}
                      (Api.GetTasks "u1")) = []
  /\ Api.bearer (Api.issue {| Auth.window := true; Auth.token := None;
                              Auth.NEXT_PUBLIC_API_URL := None |}
                           (Api.GetTasks "u1")) = None
  /\ option_map Api.bearer (ChatBot.sendMessage "u1" "add a task to buy milk")
     = Some None
  /\ option_map Api.hdrs (ChatBot.sendMessage "u1" "add a task to buy milk")
     = Some [("Content-Type", "application/json")].
Proof. repeat split. Qed.

End ClientClaims.

(** ** The dashboard's task list *)

Section DashboardClaims.
Import Dashboard.


(** X22: the handler sends nothing exactly when no user is signed in or the
    title is blank once trimmed, and then it changes nothing; otherwise it
    posts the title and description as typed through the API client, and a
    failed request leaves the page as it is. *)
Lemma handleCreateTask_guard env st :
  (handleCreateTask_request env st = None <->
     user st = None \/ Js.truthy (Js.trim (newTaskTitle st)) = false)
  /\ (handleCreateTask_request env st = None ->
      forall reply, handleCreateTask st reply = st)
  /\ (forall r, handleCreateTask_request env st = Some r ->
      exists u, user st = Some u
        /\ Js.truthy (Js.trim (newTaskTitle st)) = true
        /\ r = Api.createTask env (Auth.id u)
                  [("title", Js.Str (newTaskTitle st));
                   ("description", Js.Str (newTaskDescription st))]
        /\ handleCreateTask st None = st).
Proof.
  unfold handleCreateTask_request, handleCreateTask.
  destruct (user st) as [u|].
  - destruct (Js.truthy (Js.trim (newTaskTitle st))); simpl.
    + split; [|split].
      * split; [discriminate|intros [H|H]; discriminate].
      * discriminate.
      * intros r E. inversion E. exists u. repeat split.
    + split; [|split].
      * split; [now right|reflexivity].
      * reflexivity.
      * discriminate.
  - split; [|split].
    + split; [now left|reflexivity].
    + reflexivity.
    + discriminate.
Qed.




End DashboardClaims.

(** * Further properties of the store *)

Section StoreSessions.
Import Store.

Lemma session_wf cs : wf (run __init__ cs).
Proof. apply wf_run, wf_init. Qed.

Lemma next_id_step_exact self c :
  _next_id (step self c)
  = _next_id self + Z.of_nat (creations [c]).
Proof.
  destruct c as [now t d| | |now i t d|i|now i]; simpl; try lia.
  - unfold update. destruct (dict_get (_tasks self) i); simpl; lia.
  - unfold delete. destruct (dict_contains (_tasks self) i); simpl; lia.
  - unfold toggle_completion. destruct (dict_get (_tasks self) i); simpl; lia.
Qed.

Lemma issued_upto cs : forall self,
  issued self cs = upto (_next_id self) (creations cs)
  /\ _next_id (run self cs) = _next_id self + Z.of_nat (creations cs).
Proof.
  induction cs as [|c cs IH]; intros self; [simpl; split; [reflexivity|lia]|].
  destruct (IH (step self c)) as [Hi Hn].
  pose proof (next_id_step_exact self c) as Hc.
  rewrite issued_cons. change (run self (c :: cs)) with (run (step self c) cs).
  rewrite Hi, Hn, Hc.
  destruct c; simpl; rewrite ?Z.add_0_r; split; try reflexivity; lia.
Qed.

Lemma sorted_window l : forall a n,
  StronglySorted Z.lt l ->
  Forall (fun k => a <= k < a + Z.of_nat n) l ->
  (List.length l <= n)%nat.
Proof.
  induction l as [|k l IH]; intros a n Hs Hb; simpl; [lia|].
  inversion Hs as [|? ? Hs' Hall]; inversion Hb as [|? ? Hk Hb']; subst.
  destruct n as [|n]; [lia|]. apply le_n_S.
  apply (IH (a + 1) n Hs').
  rewrite Forall_forall in *. intros k' Hin.
  pose proof (Hb' _ Hin). pose proof (Hall _ Hin). lia.
Qed.

(** X1: ids are handed out as 1, 2, 3, ... in the order of the [create]
    calls, whatever else the session does in between (updates, toggles,
    deletions, failed calls); the counter always stands one above the number
    of tasks ever created, and no more tasks are stored than were created. *)
Theorem ids_count_creations cs :
  issued __init__ cs = upto 1 (creations cs)
  /\ _next_id (run __init__ cs) = 1 + Z.of_nat (creations cs)
  /\ (List.length (get_all (run __init__ cs)) <= creations cs)%nat.
Proof.
  destruct (issued_upto cs __init__) as [Hi Hn].
  split; [exact Hi|]. split; [exact Hn|].
  pose proof (session_wf cs) as Hwf.
  unfold get_all, dict_values. rewrite length_map.
  rewrite <- (length_map fst).
  apply (sorted_window _ 1); [apply Hwf|].
  rewrite Forall_forall. intros k Hk.
  apply in_map_iff in Hk as ([k' t] & E & Hin). simpl in E. subst k'.
  assert (Hg : get (run __init__ cs) k = Some t)
    by (apply dict_In_get; [apply Hwf|assumption]).
  destruct (wf_entry _ _ _ Hwf Hg) as [_ Hlt].
  apply dict_get_key in Hg.
  destruct (stored_were_issued cs __init__ _ Hg) as [[]|Hiss].
  pose proof (issued_bounds cs __init__) as Hb.
  rewrite Forall_forall in Hb. apply Hb in Hiss. simpl in Hiss.
  change (_next_id __init__) with 1 in Hn. rewrite Hn in Hiss. lia.
Qed.

End StoreSessions.

Section StoreLists.
Import Store.

Lemma values_untouched (d : dict) k v :
  Forall (fun kv : Z * Task => fst kv = id (snd kv) /\ fst kv <> k) d ->
  map (fun t => if id t =? k then v else t) (dict_values d) = dict_values d.
Proof.
  induction 1 as [|[k1 v1] d [Hk Hne] _ IH]; simpl in *; [reflexivity|].
  rewrite IH. destruct (Z.eqb_spec (id v1) k); [congruence|reflexivity].
Qed.

Lemma later_keys_differ (d : dict) k n :
  Forall (Z.lt k) (dict_keys d) ->
  Forall (fun kv : Z * Task => fst kv = id (snd kv) /\ fst kv < n) d ->
  Forall (fun kv : Z * Task => fst kv = id (snd kv) /\ fst kv <> k) d.
Proof.
  rewrite !Forall_forall. intros Hall Hf [k' t] Hin.
  destruct (Hf _ Hin) as [E _]. split; [assumption|]. simpl.
  assert (k < k') by (apply Hall; change k' with (fst (k', t)); now apply in_map).
  lia.
Qed.

Lemma dict_values_set (d : dict) k v n :
  StronglySorted Z.lt (dict_keys d) ->
  Forall (fun kv : Z * Task => fst kv = id (snd kv) /\ fst kv < n) d ->
  dict_contains d k = true ->
  dict_values (dict_set d k v)
  = map (fun t => if id t =? k then v else t) (dict_values d).
Proof.
  unfold dict_contains.
  induction d as [|[k1 v1] d IH]; simpl; intros Hs Hf Hc; [discriminate|].
  inversion Hs as [|? ? Hs' Hall]; inversion Hf as [|? ? [Hk _] Hf']; subst.
  simpl in Hk. rewrite <- Hk.
  destruct (Z.eqb_spec k1 k) as [E|Hne]; simpl.
  - rewrite E in Hall. f_equal. symmetry. apply values_untouched.
    exact (later_keys_differ d k n Hall Hf').
  - f_equal. now apply IH.
Qed.

Lemma dict_values_del (d : dict) k n :
  StronglySorted Z.lt (dict_keys d) ->
  Forall (fun kv : Z * Task => fst kv = id (snd kv) /\ fst kv < n) d ->
  dict_values (dict_del d k)
  = List.filter (fun t => negb (id t =? k)) (dict_values d).
Proof.
  induction d as [|[k1 v1] d IH]; simpl; intros Hs Hf; [reflexivity|].
  inversion Hs as [|? ? Hs' Hall]; inversion Hf as [|? ? [Hk _] Hf']; subst.
  simpl in Hk. rewrite <- Hk.
  destruct (Z.eqb_spec k1 k) as [E|Hne]; simpl.
  - rewrite E in Hall. symmetry. apply forallb_filter_id. apply forallb_forall.
    intros t Ht. apply in_map_iff in Ht as ([k' t'] & Et & Hin). simpl in Et.
    subst t'. pose proof (later_keys_differ d k n Hall Hf') as Hd.
    rewrite Forall_forall in Hd. destruct (Hd _ Hin) as [E' Hne]. simpl in *.
    destruct (Z.eqb_spec (id t) k); [congruence|reflexivity].
  - f_equal. now apply IH.
Qed.

(** X2: on any store a session has produced, [create] enters the new task
    last in the listing, with its title and description stripped, leaves
    every task already stored retrievable as it was, and advances the counter
    by one. *)
Theorem create_appends cs now title description :
  let self := run __init__ cs in
  let task := fst (create self now title description) in
  let self' := snd (create self now title description) in
  get_all self' = (get_all self ++ [task])%list
  /\ (forall k t, get self k = Some t -> get self' k = Some t)
  /\ Store.title task = Py.strip title
  /\ Store.description task = Py.strip description
  /\ _next_id self' = _next_id self + 1.
Proof.
  intros self task self'. pose proof (session_wf cs) as Hwf. fold self in Hwf.
  split; [|split; [|repeat split]].
  - subst self' task. unfold get_all, create, _generate_id. simpl.
    destruct Hwf as [_ Hf].
    rewrite dict_set_fresh by (eapply Forall_impl; [|exact Hf]; simpl; tauto).
    unfold dict_values. now rewrite map_app.
  - intros k t Hg. destruct (wf_entry _ _ _ Hwf Hg) as [_ Hlt].
    subst self'. unfold get, create, _generate_id. simpl.
    rewrite dict_get_set. destruct (Z.eqb_spec (_next_id self) k); [lia|exact Hg].
Qed.

(** X3: on any store a session has produced, a successful [update] or
    [toggle_completion] puts the returned task in the place of the old one in
    the listing: every other task and the order of the listing stay as they
    were. *)
Theorem replace_in_place cs now k title description :
  let self := run __init__ cs in
  (forall task' self',
      update self now k title description = Ok (task', self') ->
      get_all self' = map (fun t => if id t =? k then task' else t) (get_all self)
      /\ map id (get_all self') = map id (get_all self))
  /\ (forall task' self',
      toggle_completion self now k = Ok (task', self') ->
      get_all self' = map (fun t => if id t =? k then task' else t) (get_all self)
      /\ map id (get_all self') = map id (get_all self)).
Proof.
  intros self. pose proof (session_wf cs) as Hwf. fold self in Hwf.
  assert (Hmap : forall task' old,
            dict_get (_tasks self) k = Some old -> id task' = id old ->
            dict_values (dict_set (_tasks self) k task')
            = map (fun t => if id t =? k then task' else t) (get_all self)
            /\ map id (dict_values (dict_set (_tasks self) k task'))
               = map id (get_all self)).
  { intros task' old Hg Hid. destruct Hwf as [Hs Hf].
    assert (Hv : dict_values (dict_set (_tasks self) k task')
                 = map (fun t => if id t =? k then task' else t) (get_all self)).
    { eapply dict_values_set; try eassumption.
      unfold dict_contains. now rewrite Hg. }
    split; [exact Hv|]. rewrite Hv. rewrite map_map. apply map_ext_in.
    intros t Ht. destruct (Z.eqb_spec (id t) k) as [E|]; [|reflexivity].
    assert (Hgt : get self (id t) = Some t)
      by (apply get_all_sound; [split|]; assumption).
    unfold get in Hgt. rewrite E in Hgt. congruence. }
  split; intros task' self'.
  - unfold update. destruct (dict_get (_tasks self) k) as [old|] eqn:Hg;
      [|discriminate].
    intros E. inversion E; subst. unfold get_all at 1 3. simpl.
    now apply Hmap with (old := old).
  - unfold toggle_completion.
    destruct (dict_get (_tasks self) k) as [old|] eqn:Hg; [|discriminate].
    intros E. inversion E; subst. unfold get_all at 1 3. simpl.
    now apply Hmap with (old := old).
Qed.

(** X4: on any store a session has produced, [delete] leaves the listing
    with exactly the tasks of other ids, in their old order, and does not
    move the id counter. *)
Theorem delete_filters cs k :
  let self := run __init__ cs in
  let self' := snd (delete self k) in
  get_all self' = List.filter (fun t => negb (id t =? k)) (get_all self)
  /\ _next_id self' = _next_id self.
Proof.
  intros self self'. pose proof (session_wf cs) as Hwf. fold self in Hwf.
  destruct Hwf as [Hs Hf].
  split.
  - subst self'. unfold delete, get_all.
    destruct (dict_contains (_tasks self) k) eqn:Hc; simpl.
    + eapply dict_values_del; eassumption.
    + symmetry. apply forallb_filter_id. apply forallb_forall.
      intros t Ht. destruct (Z.eqb_spec (id t) k) as [E|]; [|reflexivity].
      assert (Hg : get self (id t) = Some t)
        by (apply get_all_sound; [split|]; assumption).
      unfold dict_contains in Hc. unfold get in Hg. rewrite E in Hg.
      now rewrite Hg in Hc.
  - subst self'. unfold delete. now destruct (dict_contains (_tasks self) k).
Qed.

End StoreLists.

Section StoreEdges.
Import Store.

Lemma missing_raises self now k title description :
  get self k = None ->
  update self now k title description = Raise (TaskNotFoundError k)
  /\ toggle_completion self now k = Raise (TaskNotFoundError k)
  /\ delete self k = (false, self).
Proof.
  unfold get, update, toggle_completion, delete, dict_contains.
  intros H. now rewrite H.
Qed.

(** X5: on any store a session has produced, an id below 1 or not yet
    handed out names no task, and neither does the id of a task just
    deleted: for each of them [get] returns nothing, [update] and
    [toggle_completion] raise [TaskNotFoundError] with that id, and [delete]
    returns false and leaves the store alone. *)
Theorem missing_ids_raise cs now k title description :
  let self := run __init__ cs in
  let gone := snd (delete self k) in
  (k < 1 \/ _next_id self <= k ->
     get self k = None
     /\ update self now k title description = Raise (TaskNotFoundError k)
     /\ toggle_completion self now k = Raise (TaskNotFoundError k)
     /\ delete self k = (false, self))
  /\ get gone k = None
  /\ update gone now k title description = Raise (TaskNotFoundError k)
  /\ toggle_completion gone now k = Raise (TaskNotFoundError k)
  /\ delete gone k = (false, gone).
Proof.
  intros self gone. pose proof (session_wf cs) as Hwf. fold self in Hwf.
  assert (Hgone : get gone k = None).
  { subst gone. unfold delete, dict_contains, get.
    destruct (dict_get (_tasks self) k) eqn:Hg; simpl; [|exact Hg].
    destruct Hwf as [Hs _]. rewrite (dict_get_del _ _ _ Hs).
    now rewrite Z.eqb_refl. }
  split; [|split; [exact Hgone|now apply missing_raises]].
  intros Hk.
    assert (Hg : get self k = None).
    { destruct (get self k) as [t|] eqn:Hg; [|reflexivity].
      destruct (wf_entry _ _ _ Hwf Hg) as [_ Hlt].
      apply dict_get_key in Hg.
      destruct (stored_were_issued cs __init__ _ Hg) as [[]|Hi].
      pose proof (issued_bounds cs __init__) as Hb.
      rewrite Forall_forall in Hb. apply Hb in Hi. simpl in Hi. lia. }
    split; [exact Hg|]. now apply missing_raises.
Qed.

(** X6: on any store a session has produced, [get] answers by id: a task
    found under an id bears that id, the id lies between 1 and the counter,
    and no two listed tasks share an id. *)
Theorem lookup_by_id cs :
  let self := run __init__ cs in
  (forall k t, get self k = Some t -> id t = k /\ 1 <= k < _next_id self)
  /\ NoDup (map id (get_all self)).
Proof.
  intros self. pose proof (session_wf cs) as Hwf. fold self in Hwf. split.
  - intros k t Hg. destruct (wf_entry _ _ _ Hwf Hg) as [E Hlt].
    split; [exact E|]. split; [|exact Hlt].
    apply dict_get_key in Hg.
    destruct (stored_were_issued cs __init__ _ Hg) as [[]|Hi].
    pose proof (issued_bounds cs __init__) as Hb.
    rewrite Forall_forall in Hb. apply Hb in Hi. simpl in Hi. lia.
  - pose proof (get_all_ascending _ Hwf) as Ha. unfold ascending in Ha.
    induction Ha as [|a l Hs IH Hall]; simpl; constructor; [|exact IH].
    intros Hin. apply in_map_iff in Hin as (b & E & Hb).
    rewrite Forall_forall in Hall. apply Hall in Hb. lia.
Qed.

(** *** Stripped fields *)

Lemma rstrip_idem s : Py.rstrip (Py.rstrip s) = Py.rstrip s.
Proof.
  induction s as [|c s IH]; simpl; [reflexivity|].
  destruct (Py.rstrip s) as [|d r] eqn:Hr.
  - destruct (Py.isspace c) eqn:Hc; simpl; [reflexivity|]. now rewrite Hc.
  - simpl in IH |- *. now rewrite IH.
Qed.

Lemma rstrip_head c s :
  Py.isspace c = false -> Py.rstrip (String c s) = String c (Py.rstrip s).
Proof.
  intros Hc. simpl. destruct (Py.rstrip s); [now rewrite Hc|reflexivity].
Qed.

Lemma strip_idem s : Py.strip (Py.strip s) = Py.strip s.
Proof.
  unfold Py.strip. destruct (Py.all_space s) eqn:Hs.
  - now rewrite (lstrip_all_space _ Hs).
  - destruct (lstrip_not_all_space _ Hs) as (c & r & E & Hc).
    rewrite E, (rstrip_head _ _ Hc). simpl Py.lstrip. rewrite Hc.
    now rewrite (rstrip_head _ _ Hc), rstrip_idem.
Qed.

Lemma stripped_step self c :
  Forall (fun kv : Z * Task => stripped (snd kv)) (_tasks self) ->
  Forall (fun kv : Z * Task => stripped (snd kv)) (_tasks (step self c)).
Proof.
  intros H. destruct c as [now t d| | |now i t d|i|now i]; simpl; try assumption.
  - apply dict_set_Forall; [assumption|]. split; apply strip_idem.
  - unfold update. destruct (dict_get (_tasks self) i); simpl; [|assumption].
    apply dict_set_Forall; [assumption|]. split; apply strip_idem.
  - unfold delete. destruct (dict_contains (_tasks self) i); simpl; [|assumption].
    now apply dict_del_Forall.
  - unfold toggle_completion.
    destruct (dict_get (_tasks self) i) as [old|] eqn:Hg; simpl; [|assumption].
    apply dict_set_Forall; [assumption|]. simpl.
    apply dict_get_In in Hg. rewrite Forall_forall in H. exact (H _ Hg).
Qed.

(** X7: whatever strings the callers pass, no stored task ever has white
    space at either end of its title or of its description: [create] and
    [update] strip both, and nothing else writes them. *)
Theorem stored_fields_stripped cs :
  Forall stripped (get_all (run __init__ cs)).
Proof.
  assert (H : forall self,
             Forall (fun kv : Z * Task => stripped (snd kv)) (_tasks self) ->
             Forall (fun kv : Z * Task => stripped (snd kv)) (_tasks (run self cs))).
  { induction cs as [|c cs IH]; intros self Hs; simpl; [assumption|].
    apply IH. now apply stripped_step. }
  specialize (H __init__ (Forall_nil _)).
  unfold get_all, dict_values. rewrite Forall_forall in *.
  intros t Ht. apply in_map_iff in Ht as (kv & E & Hin). subst t. now apply H.
Qed.

(** X8: a title and description that pass validation are stored by [create]
    with a title of 1 to 200 characters and a description of at most 1000,
    and the stored values pass validation again. *)
Theorem validated_create_bounds self now title description :
  validate_title title = Ok tt ->
  validate_description description = Ok tt ->
  let task := fst (create self now title description) in
  1 <= Py.len (Store.title task) <= 200
  /\ Py.len (Store.description task) <= 1000
  /\ validate_title (Store.title task) = Ok tt
  /\ validate_description (Store.description task) = Ok tt.
Proof.
  intros Ht Hd task. subst task. simpl.
  rewrite validate_title_cases in Ht.
  destruct (Py.all_space title) eqn:Hs; [discriminate|].
  destruct (Z.gtb_spec (Py.len title) 200) as [|Hl]; [discriminate|].
  unfold validate_description in Hd.
  destruct (Z.gtb_spec (Py.len description) 1000) as [|Hld]; [discriminate|].
  pose proof (strip_len title). pose proof (strip_len description).
  assert (Hne : Py.strip title <> "").
  { intros E. apply strip_empty in E. congruence. }
  assert (H1 : 1 <= Py.len (Py.strip title)).
  { destruct (Z.eq_dec (Py.len (Py.strip title)) 0) as [E|E].
    - now apply len_zero in E.
    - unfold Py.len in *. lia. }
  split; [lia|]. split; [lia|]. split.
  - rewrite validate_title_cases.
    destruct (Py.all_space (Py.strip title)) eqn:Hs'.
    + apply strip_empty in Hs'. rewrite strip_idem in Hs'. contradiction.
    + destruct (Z.gtb_spec (Py.len (Py.strip title)) 200); [lia|reflexivity].
  - unfold validate_description.
    destruct (Z.gtb_spec (Py.len (Py.strip description)) 1000); [lia|reflexivity].
Qed.

Lemma validated_create_bounds_witness :
  Py.len (Store.title (fst (create __init__ 10 "  Buy groceries " " Milk "))) = 13
  /\ validate_title
       (Store.title (fst (create __init__ 10 "  Buy groceries " " Milk ")))
     = Ok tt.
Proof.
  destruct (validated_create_bounds __init__ 10 "  Buy groceries " " Milk "
              eq_refl eq_refl) as (_ & _ & Hv & _).
  split; [reflexivity|exact Hv].
Defined.

End StoreEdges.

Section StoreTimes.
Import Store.

Lemma timely_later b b' d :
  b <= b' -> Forall (timely b) d -> Forall (timely b') d.
Proof.
  intros Hb H. eapply Forall_impl; [|exact H]. unfold timely. intros. lia.
Qed.

Lemma clock_cons c cs : clock (c :: cs) = (clock [c] ++ clock cs)%list.
Proof. now destruct c. Qed.

Lemma timely_step self c b :
  Forall (timely b) (_tasks self) ->
  Forall (fun x => b <= x) (clock [c]) ->
  Forall (timely (hd b (clock [c]))) (_tasks (step self c)).
Proof.
  intros Ht Hc.
  assert (Hold : forall k old, dict_get (_tasks self) k = Some old ->
            created_at old <= b).
  { intros k old Hg. apply dict_get_In in Hg. rewrite Forall_forall in Ht.
    specialize (Ht _ Hg). unfold timely in Ht. simpl in Ht. lia. }
  destruct c as [now t d| | |now i t d|i|now i]; simpl in *; try assumption.
  - inversion Hc; subst.
    apply dict_set_Forall; [now apply timely_later with (b := b)|].
    unfold timely. simpl. lia.
  - inversion Hc; subst. unfold update.
    destruct (dict_get (_tasks self) i) as [old|] eqn:Hg; simpl;
      [|now apply timely_later with (b := b)].
    apply dict_set_Forall; [now apply timely_later with (b := b)|].
    unfold timely. simpl. specialize (Hold _ _ Hg). lia.
  - unfold delete. destruct (dict_contains (_tasks self) i); simpl;
      [|assumption].
    now apply dict_del_Forall.
  - inversion Hc; subst. unfold toggle_completion.
    destruct (dict_get (_tasks self) i) as [old|] eqn:Hg; simpl;
      [|now apply timely_later with (b := b)].
    apply dict_set_Forall; [now apply timely_later with (b := b)|].
    unfold timely. simpl. specialize (Hold _ _ Hg). lia.
Qed.

Lemma timely_run cs : forall self b,
  Forall (timely b) (_tasks self) ->
  Forall (fun x => b <= x) (clock cs) ->
  StronglySorted Z.le (clock cs) ->
  exists b', Forall (timely b') (_tasks (run self cs)).
Proof.
  induction cs as [|c cs IH]; intros self b Ht Hc Hs; [now exists b|].
  rewrite clock_cons in Hc, Hs. apply Forall_app in Hc as [Hc1 Hc2].
  pose proof (timely_step self c b Ht Hc1) as Hstep.
  simpl run. apply IH with (b := hd b (clock [c])); [exact Hstep| |];
    destruct c; simpl in *; try assumption; inversion Hs; subst; assumption.
Qed.

(** X9: if the clock readings a session takes never decrease, every stored
    task was created no later than it was last updated. *)
Theorem timestamps_ordered cs :
  StronglySorted Z.le (clock cs) ->
  Forall (fun t => created_at t <= updated_at t) (get_all (run __init__ cs)).
Proof.
  intros Hs.
  assert (Hb : exists b, Forall (fun x => b <= x) (clock cs)).
  { destruct (clock cs) as [|b l]; [exists 0; constructor|].
    exists b. inversion Hs; subst. constructor; [lia|].
    eapply Forall_impl; [|eassumption]. simpl; intros; lia. }
  destruct Hb as [b Hb].
  destruct (timely_run cs __init__ b (Forall_nil _) Hb Hs) as [b' Ht].
  unfold get_all, dict_values. rewrite Forall_forall in *.
  intros t Hin. apply in_map_iff in Hin as (kv & E & Hin). subst t.
  specialize (Ht _ Hin). unfold timely in Ht. lia.
Qed.

Lemma timestamps_ordered_witness :
  Forall (fun t => created_at t <= updated_at t)
    (get_all (run __init__ [Create 10 "Buy groceries" "";
                            Create 10 "Call mom" "";
                            ToggleCompletion 12 1;
                            Update 15 2 "Call dad" ""])).
Proof.
  apply (timestamps_ordered [Create 10 "Buy groceries" "";
                             Create 10 "Call mom" "";
                             ToggleCompletion 12 1;
                             Update 15 2 "Call dad" ""]).
  simpl. repeat constructor; lia.
Defined.

End StoreTimes.

Section PatternClaims.
Import Store.

(** X10: the [update_task] of the error-handling pattern reports a blank
    title before it looks at the store, a missing task next, and otherwise
    stores the stripped title and description; it checks neither length
    limit, so on a stored task it accepts every title that is not blank,
    also one [validate_title] rejects as too long. *)
Theorem pattern_update_task_order storage now k title description :
  (Py.strip title = "" ->
     Pattern.update_task storage now k title description
     = Raise (InvalidTaskDataError "Title cannot be empty"))
  /\ (Py.strip title <> "" -> get storage k = None ->
     Pattern.update_task storage now k title description
     = Raise (TaskNotFoundError k))
  /\ (Py.strip title <> "" -> forall old, get storage k = Some old ->
     exists task' storage',
       Pattern.update_task storage now k title description
       = Ok (task', storage')
       /\ get storage' k = Some task'
       /\ Store.title task' = Py.strip title
       /\ Store.description task' = Py.strip description
       /\ (200 < Py.len title -> raises (validate_title title) = true)).
Proof.
  split; [apply pattern_blank_title_first|].
  assert (Hgo : Py.strip title <> "" ->
            Pattern.update_task storage now k title description
            = match get storage k with
              | None => Raise (TaskNotFoundError k)
              | Some _ => update storage now k title description
              end).
  { intros Hne. unfold Pattern.update_task.
    assert (Hf : Py.falsy title = false).
    { destruct title; [now elim Hne|reflexivity]. }
    rewrite Hf. simpl.
    destruct (Z.eqb_spec (Py.len (Py.strip title)) 0) as [E|]; [|reflexivity].
    now apply len_zero in E. }
  split.
  - intros Hne Hg. now rewrite (Hgo Hne), Hg.
  - intros Hne old Hg. rewrite (Hgo Hne), Hg.
    unfold update. unfold get in Hg. rewrite Hg.
    eexists _, _. split; [reflexivity|]. simpl. repeat split.
    + unfold get. simpl. rewrite dict_get_set. now rewrite Z.eqb_refl.
    + intros Hl. rewrite validate_title_cases.
      destruct (Py.all_space title); [reflexivity|].
      destruct (Z.gtb_spec (Py.len title) 200); [reflexivity|lia].
Qed.

End PatternClaims.

(** * Further properties of the client *)

Section SignIn.

Lemma bearer_single v u d token :
  Api.bearer {| Api.verb := v; Api.url := u; Api.data := d;
                Api.hdrs := [("Authorization", "Bearer " ++ token)] |}
  = Some token.
Proof.
  unfold Api.bearer. cbn [Api.hdrs Api.header]. simpl String.eqb.
  apply bearer_of_header.
Qed.

Lemma issue_bearer env op token :
  Auth.getToken env = Some token -> Js.truthy token = true ->
  Api.bearer (Api.issue env op) = Some token.
Proof.
  intros Ht Hne. unfold Api.bearer. rewrite issue_headers.
  unfold Api.getAuthHeaders. rewrite Ht, Hne.
  cbn [Api.header]. simpl String.eqb. apply bearer_of_header.
Qed.

(** X11: signing in and what follows fit together: when the server answers
    a sign-in or a sign-up with an access token, the token is stored, and
    from then on every request of the API client and the request of
    [getCurrentUser] present exactly that token as bearer credential. *)
Theorem sign_in_round_trip env r token :
  Auth.window env = true ->
  Login.ok r = true ->
  Js.field "access_token" (Login.body r) = Some (Js.Str token) ->
  Js.truthy token = true ->
  exists env',
    Login.signInApi env (Some r) = Ok (Login.body r, env')
    /\ Login.signUpApi env (Some r) = Ok (Login.body r, env')
    /\ Auth.getToken env' = Some token
    /\ (forall op, Api.bearer (Api.issue env' op) = Some token)
    /\ option_map Api.bearer (Login.getCurrentUser_request env')
       = Some (Some token).
Proof.
  intros Hw Hok Hf Hne. exists (Login.setItem env token).
  assert (Hg : Auth.getToken (Login.setItem env token) = Some token).
  { unfold Auth.getToken. simpl. now rewrite Hw. }
  unfold Login.signInApi, Login.signUpApi. rewrite Hok, Hf.
  cbn [negb Js.truthyValue Js.toString]. rewrite Hne, Hw.
  repeat split; try assumption.
  - intros op. now apply issue_bearer.
  - unfold Login.getCurrentUser_request. rewrite Hg, Hne.
    cbn [negb option_map]. now rewrite bearer_single.
Qed.

Lemma sign_in_round_trip_witness :
  exists env',
    Login.signInApi {| Auth.window := true; Auth.token := None;
                       Auth.NEXT_PUBLIC_API_URL := None |}
      (Some {| Login.ok := true;
               Login.body := [("access_token", Js.Str "abc");
                              ("token_type", Js.Str "bearer")] |})
    = Ok ([("access_token", Js.Str "abc"); ("token_type", Js.Str "bearer")],
          env')
    /\ Api.bearer (Api.issue env' (Api.GetTasks "u1")) = Some "abc".
Proof.
  destruct (sign_in_round_trip
              {| Auth.window := true; Auth.token := None;
                 Auth.NEXT_PUBLIC_API_URL := None |}
              {| Login.ok := true;
                 Login.body := [("access_token", Js.Str "abc");
                                ("token_type", Js.Str "bearer")] |}
              "abc" eq_refl eq_refl eq_refl eq_refl)
    as (env' & Hin & _ & _ & Hb & _).
  exists env'. split; [exact Hin|apply Hb].
Defined.

(** X12: the edges of signing in: a refusal without a usable [detail] is
    thrown as "Sign in failed" (for a sign-up, "Sign up failed"), a refusal
    with a text [detail] is thrown with that text, and an accepted answer
    that carries no access token (none, or an empty one) returns the data and
    leaves the storage, and so any earlier token, as it was. *)
Theorem sign_in_edges env r :
  (Login.ok r = false ->
   Js.truthyValue (Js.field "detail" (Login.body r)) = false ->
   Login.signInApi env (Some r) = Raise (Login.Error "Sign in failed")
   /\ Login.signUpApi env (Some r) = Raise (Login.Error "Sign up failed"))
  /\ (forall detail,
      Login.ok r = false ->
      Js.field "detail" (Login.body r) = Some (Js.Str detail) ->
      Js.truthy detail = true ->
      Login.signInApi env (Some r) = Raise (Login.Error detail)
      /\ Login.signUpApi env (Some r) = Raise (Login.Error detail))
  /\ (Login.ok r = true ->
      Js.truthyValue (Js.field "access_token" (Login.body r)) = false ->
      Login.signInApi env (Some r) = Ok (Login.body r, env)
      /\ Login.signUpApi env (Some r) = Ok (Login.body r, env)).
Proof.
  unfold Login.signInApi, Login.signUpApi. split; [|split].
  - intros Hok Hd. rewrite Hok. cbn [negb].
    destruct (Js.field "detail" (Login.body r)) as [d|]; [|now split].
    now rewrite Hd.
  - intros detail Hok Hd Hne. rewrite Hok, Hd. cbn [negb].
    cbn [Js.truthyValue Js.toString]. now rewrite Hne.
  - intros Hok Ht. rewrite Hok. cbn [negb].
    destruct (Js.field "access_token" (Login.body r)) as [t|].
    + rewrite Ht. now split.
    + now split.
Qed.

(** X13: signing out in the browser removes the stored token and sends the
    page to the start: afterwards no request of the API client carries an
    [Authorization] header, and [getCurrentUser] answers "nobody" without
    asking the server. *)
Theorem sign_out_clears env :
  Auth.window env = true ->
  exists env',
    Login.signOut env = Ok (env', Some "/")
    /\ Auth.getToken env' = None
    /\ (forall op, Api.hdrs (Api.issue env' op) = []
                   /\ Api.bearer (Api.issue env' op) = None)
    /\ Login.getCurrentUser_request env' = None
    /\ (forall reply, Login.getCurrentUser env' reply = None).
Proof.
  intros Hw. exists (Login.removeItem env).
  assert (Hg : Auth.getToken (Login.removeItem env) = None).
  { unfold Auth.getToken. simpl. now rewrite Hw. }
  unfold Login.signOut. rewrite Hw.
  split; [reflexivity|]. split; [exact Hg|]. split; [|split].
  - intros op. unfold Api.bearer. rewrite issue_headers.
    unfold Api.getAuthHeaders. rewrite Hg. now split.
  - unfold Login.getCurrentUser_request. now rewrite Hg.
  - intros reply. unfold Login.getCurrentUser, Login.getCurrentUser_request.
    now rewrite Hg.
Qed.

Lemma sign_out_clears_witness :
  exists env',
    Login.signOut {| Auth.window := true; Auth.token := Some "abc";
                     Auth.NEXT_PUBLIC_API_URL := None |} = Ok (env', Some "/")
    /\ Api.hdrs (Api.issue env' (Api.GetTasks "u1")) = [].
Proof.
  destruct (sign_out_clears {| Auth.window := true; Auth.token := Some "abc";
                               Auth.NEXT_PUBLIC_API_URL := None |} eq_refl)
    as (env' & Ho & _ & Hh & _).
  exists env'. split; [exact Ho|apply Hh].
Defined.

Lemma current_user_request_token env req :
  Login.getCurrentUser_request env = Some req ->
  exists token,
    Auth.getToken env = Some token /\ Js.truthy token = true
    /\ Api.bearer req = Some token
    /\ Api.url req = Api.API_URL env ++ "/auth/me".
Proof.
  unfold Login.getCurrentUser_request.
  destruct (Auth.getToken env) as [token|]; [|discriminate].
  destruct (Js.truthy token) eqn:Hne; simpl; [|discriminate].
  intros E. inversion E; subst. exists token.
  split; [reflexivity|]. split; [exact Hne|].
  split; [exact (bearer_single _ _ _ token)|reflexivity].
Qed.

(** X14: [getCurrentUser] asks the server only when a non-empty token is
    stored, its request always carries that token as bearer credential, and
    it returns a user only when that request was answered with [ok]; in every
    other case it returns nobody. *)
Theorem current_user_needs_token env reply :
  (forall req, Login.getCurrentUser_request env = Some req ->
     exists token,
       Auth.getToken env = Some token /\ Js.truthy token = true
       /\ Api.bearer req = Some token
       /\ Api.url req = Api.API_URL env ++ "/auth/me")
  /\ (forall u, Login.getCurrentUser env reply = Some u ->
     Login.getCurrentUser_request env <> None
     /\ reply = Some {| Login.me_ok := true; Login.me_user := u |})
  /\ (Login.getCurrentUser_request env = None ->
      Login.getCurrentUser env reply = None).
Proof.
  split; [apply current_user_request_token|].
  unfold Login.getCurrentUser.
  destruct (Login.getCurrentUser_request env) as [req|]; split;
    try discriminate; try reflexivity.
  intros u. destruct reply as [[o w]|]; simpl; [|discriminate].
  destruct o; simpl; [|discriminate].
  intros E. inversion E; subst. split; [discriminate|reflexivity].
Qed.

End SignIn.

Section DashboardMore.
Import Dashboard.

(** X15: when the page mounts, it either finds nobody signed in, sends the
    router to the start and asks for no tasks, leaving its state as it was
    (still loading), or it records the user and asks for that user's tasks
    with the stored token as bearer credential; once that request settles
    the page is no longer loading and lists what the server sent, or what it
    listed before when the request failed. *)
Theorem mount_loads_signed_in env st who reply :
  let st' := fst (fst (fetchUser env st who reply)) in
  let nav := snd (fst (fetchUser env st who reply)) in
  let req := snd (fetchUser env st who reply) in
  (Login.getCurrentUser env who = None ->
     nav = Some "/" /\ req = None /\ st' = st)
  /\ (forall u, Login.getCurrentUser env who = Some u ->
     nav = None /\ user st' = Some u /\ loading st' = false
     /\ tasks st' = match reply with Some data => data | None => tasks st end
     /\ req = Some (Api.getTasks env (Auth.id u))
     /\ exists token,
          Auth.getToken env = Some token
          /\ option_map Api.bearer req = Some (Some token)).
Proof.
  intros st' nav req. subst st' nav req. unfold fetchUser.
  split.
  - intros H. now rewrite H.
  - intros u H. rewrite H. simpl.
    split; [reflexivity|]. split; [now destruct reply|].
    split; [now destruct reply|]. split; [now destruct reply|].
    split; [reflexivity|].
    destruct (Login.getCurrentUser_request env) as [r|] eqn:Hr.
    + destruct (current_user_request_token env r Hr)
        as (token & Ht & Hne & _).
      exists token. split; [exact Ht|]. f_equal.
      exact (issue_bearer env (Api.GetTasks (Auth.id u)) token Ht Hne).
    + unfold Login.getCurrentUser in H. rewrite Hr in H. discriminate.
Qed.

Lemma filter_views l :
  (List.length (List.filter (fun t => negb (Api.completed t)) l)
   + List.length (List.filter Api.completed l))%nat = List.length l.
Proof.
  induction l as [|a l IH]; simpl; [reflexivity|].
  destruct (Api.completed a); simpl; lia.
Qed.

(** X16: the three views of the task list fit together: "all" shows every
    task, "active" and "completed" share the tasks out between them with no
    task in both, each keeps the tasks in the list's order, and the two
    counters of the page are the sizes of those two views. *)
Theorem filter_views_partition st :
  filteredTasks (setFilter st all) = tasks st
  /\ (forall t, In t (tasks st) <->
        In t (filteredTasks (setFilter st active))
        \/ In t (filteredTasks (setFilter st completed)))
  /\ (forall t, In t (filteredTasks (setFilter st active)) ->
        In t (filteredTasks (setFilter st completed)) -> False)
  /\ completedCount st
     = Z.of_nat (List.length (filteredTasks (setFilter st completed)))
  /\ activeCount st
     = Z.of_nat (List.length (filteredTasks (setFilter st active)))
  /\ 0 <= activeCount st
  /\ activeCount st + completedCount st = Z.of_nat (List.length (tasks st)).
Proof.
  unfold filteredTasks, activeCount, completedCount. simpl.
  pose proof (filter_views (tasks st)) as Hv.
  change (admits active) with (fun t => negb (Api.completed t)).
  change (admits completed) with Api.completed.
  split; [|split; [|split; [|split; [|split; [|split]]]]]; try lia.
  - apply forallb_filter_id. now apply forallb_forall.
  - intros t. rewrite !filter_In. split.
    + intros H. destruct (Api.completed t); simpl; [right|left]; now split.
    + intros [[H _]|[H _]]; exact H.
  - intros t. rewrite !filter_In.
    destruct (Api.completed t); simpl; intros [_ H1] [_ H2]; discriminate.
Qed.

Lemma replace_length (l : list Api.Task) k new :
  List.length (map (fun t => if Api.id t =? k then new else t) l)
  = List.length l.
Proof. apply length_map. Qed.

Lemma replace_ids (l : list Api.Task) k new :
  Api.id new = k ->
  map Api.id (map (fun t => if Api.id t =? k then new else t) l)
  = map Api.id l.
Proof.
  intros E. rewrite map_map. apply map_ext. intros t.
  destruct (Z.eqb_spec (Api.id t) k); congruence.
Qed.

Lemma replace_In (l : list Api.Task) k new t :
  In t (map (fun t => if Api.id t =? k then new else t) l) ->
  t = new \/ In t l /\ Api.id t <> k.
Proof.
  intros H. apply in_map_iff in H as (x & E & Hx).
  destruct (Z.eqb_spec (Api.id x) k); subst; auto.
Qed.

(** X17: for a signed-in user, ticking a task asks the server for the
    opposite of the completion state shown, never for the one shown, and
    saving an edit sends the edited title and description only; when the
    server answers, the answer takes the place of every listed task with
    that id and nothing else moves, so the list keeps its length and, if the
    answer bears the same id, its order of ids, and the editor closes; when
    the request fails the page stays as it is, editor open. *)
Theorem replace_handlers env st u :
  user st = Some u ->
  (forall task,
     option_map Api.data (handleToggleComplete_request env st task)
     = Some (Some [("completed", Js.Boolean (negb (Api.completed task)))]))
  /\ (forall task updated,
     let st' := handleToggleComplete st task (Some updated) in
     List.length (tasks st') = List.length (tasks st)
     /\ (forall t, In t (tasks st') ->
           t = updated \/ In t (tasks st) /\ Api.id t <> Api.id task)
     /\ (Api.id updated = Api.id task ->
         map Api.id (tasks st') = map Api.id (tasks st)))
  /\ (forall task, handleToggleComplete st task None = st)
  /\ (forall e updated, editingTask st = Some e ->
     let st' := handleUpdateTask st (Some updated) in
     option_map Api.data (handleUpdateTask_request env st)
     = Some (Some [("title", Js.Str (Api.title e));
                   ("description", Js.Str (Api.description e))])
     /\ List.length (tasks st') = List.length (tasks st)
     /\ (forall t, In t (tasks st') ->
           t = updated \/ In t (tasks st) /\ Api.id t <> Api.id e)
     /\ (Api.id updated = Api.id e ->
         map Api.id (tasks st') = map Api.id (tasks st))
     /\ editingTask st' = None)
  /\ handleUpdateTask st None = st.
Proof.
  intros Hu.
  unfold handleToggleComplete_request, handleUpdateTask_request,
    handleToggleComplete, handleUpdateTask. rewrite Hu.
  split; [|split; [|split; [|split]]].
  - reflexivity.
  - intros task updated. simpl.
    split; [apply replace_length|]. split; [intros t; apply replace_In|].
    apply replace_ids.
  - reflexivity.
  - intros e updated He. rewrite He. simpl.
    split; [reflexivity|]. split; [apply replace_length|].
    split; [intros t; apply replace_In|]. split; [apply replace_ids|].
    reflexivity.
  - now destruct (editingTask st).
Qed.

Lemma replace_handlers_witness :
  let u := {| Auth.id := "u1"; Auth.email := "u1@example.com";
              Auth.name := None |} in
  let t1 := {| Api.id := 1; Api.user_id := "u1"; Api.title := "Buy groceries";
               Api.description := ""; Api.completed := false;
               Api.created_at := "2025-12-05T10:30:00";
               Api.updated_at := "2025-12-05T10:30:00" |} in
  let t2 := {| Api.id := 2; Api.user_id := "u1"; Api.title := "Call mom";
               Api.description := ""; Api.completed := true;
               Api.created_at := "2025-12-05T11:00:00";
               Api.updated_at := "2025-12-05T11:30:00" |} in
  let st := setTasks (setUser initial u) [t1; t2] in
  option_map Api.data
    (handleToggleComplete_request
       {| Auth.window := true; Auth.token := Some "abc";
          Auth.NEXT_PUBLIC_API_URL := None |} st t2)
  = Some (Some [("completed", Js.Boolean false)])
  /\ handleToggleComplete st t2 None = st.
Proof.
  intros u t1 t2 st.
  destruct (replace_handlers
              {| Auth.window := true; Auth.token := Some "abc";
                 Auth.NEXT_PUBLIC_API_URL := None |} st u eq_refl)
    as (Hr & _ & Hn & _).
  split; [exact (Hr t2)|exact (Hn t2)].
Defined.

(** X18: deleting a task locally waits for the server: when [deleteTask]
    resolves for a signed-in user, every listed task with that id is gone
    and the others stay, in their order; when it throws, or nobody is signed
    in, the list is left as it is. *)
Theorem delete_handler st taskId :
  (forall u, user st = Some u ->
     let st' := handleDeleteTask st taskId true in
     (forall t, In t (tasks st') <-> In t (tasks st) /\ Api.id t <> taskId)
     /\ tasks st'
        = List.filter (fun t => negb (Api.id t =? taskId)) (tasks st)
     /\ (List.length (tasks st') <= List.length (tasks st))%nat
     /\ handleDeleteTask st' taskId true = st')
  /\ handleDeleteTask st taskId false = st
  /\ (user st = None -> forall done, handleDeleteTask st taskId done = st).
Proof.
  unfold handleDeleteTask. split; [|split].
  - intros u Hu. rewrite Hu. simpl. rewrite Hu.
    split; [|split; [reflexivity|split]].
    + intros t. rewrite filter_In.
      destruct (Z.eqb_spec (Api.id t) taskId); simpl; intuition congruence.
    + apply filter_length_le.
    + unfold setTasks. simpl. f_equal.
      apply forallb_filter_id. apply forallb_forall.
      intros t Ht. now apply filter_In in Ht.
  - now destruct (user st).
  - intros Hu done. now rewrite Hu.
Qed.

End DashboardMore.

Section ChatWidget.
Import ChatBot.

Lemma send_whole_history st p reply st' :
  fst (sendMessage_whole st p reply) = Some st' ->
  exists added,
    chatHistory st' = (chatHistory st ++ added)%list
    /\ (List.length added <= 2)%nat.
Proof.
  unfold sendMessage_whole, sendMessage_before.
  destruct (Js.truthy (Js.trim (message st))); simpl.
  - destruct reply as [| |data]; simpl; intros E; inversion E; subst; simpl.
    + eexists. split; [reflexivity|simpl; lia].
    + eexists. rewrite <- app_assoc. split; [reflexivity|simpl; lia].
  - intros E. inversion E; subst. exists []. rewrite app_nil_r.
    split; [reflexivity|simpl; lia].
Qed.

(** X19: a message that is blank once trimmed sends nothing and changes
    nothing.  Any other message is sent as typed and entered in the history
    as typed, and the input is emptied; if the request fails the history
    gains nothing more and the prop [onTasksChanged] is not called; if it
    answers with an object, the object's [response] (or [undefined]) is
    entered after the message and the prop is called when it was given; in
    both cases the widget ends not loading.  If it answers [null] the prop is
    called when given and rendering throws.  Over any number of sends that
    render, the history only grows, by at most two entries a send. *)
Theorem chat_history_grows st p turns userId :
  (Js.truthy (Js.trim (message st)) = false ->
     sendMessage userId (message st) = None
     /\ forall reply, sendMessage_whole st p reply = (Some st, false))
  /\ (Js.truthy (Js.trim (message st)) = true ->
     let typed := {| role := "user"; text := Some (Js.Str (message st)) |} in
     option_map Api.data (sendMessage userId (message st))
     = Some (Some [("message", Js.Str (message st))])
     /\ sendMessage_whole st p Failed
        = (Some {| isOpen := isOpen st; message := "";
                   chatHistory := chatHistory st ++ [typed];
                   loading := false |}, false)
     /\ (forall data,
          sendMessage_whole st p (Json data)
          = (Some {| isOpen := isOpen st; message := "";
                     chatHistory :=
                       (chatHistory st ++ [typed])
                       ++ [{| role := "ai";
                              text := Js.field "response" data |}];
                     loading := false |}, p))
     /\ sendMessage_whole st p JsonNull = (None, p))
  /\ (forall st', conversation st p turns = Some st' ->
      exists added,
        chatHistory st' = (chatHistory st ++ added)%list
        /\ (List.length added <= 2 * List.length turns)%nat).
Proof.
  split; [|split].
  - intros Hb. unfold sendMessage, sendMessage_whole, sendMessage_before.
    rewrite Hb. split; reflexivity.
  - intros Hb typed. unfold sendMessage, sendMessage_whole, sendMessage_before.
    rewrite Hb. simpl. destruct p; repeat split.
  - revert st. induction turns as [|[m r] turns IH]; intros st st'; simpl.
    + intros E. inversion E; subst. exists [].
      split; [now rewrite app_nil_r|simpl; lia].
    + destruct (fst (sendMessage_whole (typing st m) p r)) as [s1|] eqn:E1;
        [|discriminate].
      intros E. destruct (IH _ _ E) as (added & Hh & Hl).
      destruct (send_whole_history _ _ _ _ E1) as (first & Hf & Hfl).
      simpl in Hf. exists (first ++ added)%list.
      rewrite Hh, Hf, app_assoc. split; [reflexivity|].
      rewrite length_app. lia.
Qed.

Lemma append_cancel_l p a b : (p ++ a = p ++ b)%string -> a = b.
Proof.
  induction p as [|c p IH]; simpl; [trivial|].
  intros H. inversion H. auto.
Qed.

Lemma append_length a b :
  String.length (a ++ b) = (String.length a + String.length b)%nat.
Proof. induction a as [|c a IH]; simpl; [reflexivity|]. now rewrite IH. Qed.

Lemma append_cancel_r s : forall a b, (a ++ s = b ++ s)%string -> a = b.
Proof.
  induction a as [|c a IH]; intros b H.
  - destruct b as [|d b]; [reflexivity|].
    apply (f_equal String.length) in H. simpl in H.
    rewrite append_length in H. lia.
  - destruct b as [|d b].
    + apply (f_equal String.length) in H. simpl in H.
      rewrite append_length in H. lia.
    + simpl in H. inversion H. f_equal. auto.
Qed.

(** X20: the chat widget always posts to the address of a local server: its
    request goes where the API client's [chatWithAI] would send it exactly
    when the configured API address is that local one; and its body has no
    [conversation_id] field, whereas [chatWithAI] always sends one. *)
Theorem widget_address_fixed env userId message r :
  sendMessage userId message = Some r ->
  Api.url r = "http://localhost:8000/api/" ++ userId ++ "/chat"
  /\ (Api.url r = Api.url (Api.chatWithAI env userId message None)
      <-> Api.API_URL env = "http://localhost:8000")
  /\ option_map (Js.field "conversation_id") (Api.data r) = Some None
  /\ (forall c, option_map (Js.field "conversation_id")
                  (Api.data (Api.chatWithAI env userId message c))
                <> Some None).
Proof.
  unfold sendMessage. destruct (Js.truthy (Js.trim message)); [|discriminate].
  simpl. intros E. inversion E; subst. clear E. simpl.
  split; [reflexivity|]. split; [|split; [reflexivity|discriminate]].
  split.
  - intros H.
    change ("http://localhost:8000/api/" ++ userId ++ "/chat")
      with ("http://localhost:8000" ++ ("/api/" ++ userId ++ "/chat")) in H.
    symmetry. eapply append_cancel_r. exact H.
  - intros H. rewrite H. reflexivity.
Qed.

Lemma widget_address_fixed_witness :
  exists r,
    sendMessage "u1" "add a task" = Some r
    /\ Api.url r = "http://localhost:8000/api/u1/chat"
    /\ option_map (Js.field "conversation_id") (Api.data r) = Some None.
Proof.
  eexists. split; [reflexivity|].
  destruct (widget_address_fixed
              {| Auth.window := true; Auth.token := None;
                 Auth.NEXT_PUBLIC_API_URL := Some "https://api.example.com" |}
              "u1" "add a task" _ eq_refl) as (Hu & _ & Hc & _).
  split; [exact Hu|exact Hc].
Defined.

End ChatWidget.

Section Addresses.

Lemma to_int_not_nil n : Z.to_int n <> Decimal.Pos Decimal.Nil
                         /\ Z.to_int n <> Decimal.Neg Decimal.Nil.
Proof.
  destruct n as [|p|p]; simpl; split; try discriminate;
    intros E; inversion E as [H]; now apply DecimalPos.Unsigned.to_uint_nonnil in H.
Qed.

Lemma ofNumber_inj a b : Js.ofNumber a = Js.ofNumber b -> a = b.
Proof.
  unfold Js.ofNumber. intros H.
  apply DecimalZ.to_int_inj.
  destruct (to_int_not_nil a) as [Ha1 Ha2], (to_int_not_nil b) as [Hb1 Hb2].
  pose proof (NilZero.isi _ Ha1 Ha2) as Ia.
  pose proof (NilZero.isi _ Hb1 Hb2) as Ib.
  rewrite H in Ia. congruence.
Qed.

(** X21: requests about different tasks of a user go to different
    addresses: for one user and one API address, the update, delete and
    completion addresses each determine the task id. *)
Theorem task_addresses_distinct env userId a b :
  (forall t t', Api.url (Api.updateTask env userId a t)
                = Api.url (Api.updateTask env userId b t') -> a = b)
  /\ (Api.url (Api.deleteTask env userId a)
      = Api.url (Api.deleteTask env userId b) -> a = b)
  /\ (forall c c', Api.url (Api.toggleTaskCompletion env userId a c)
                   = Api.url (Api.toggleTaskCompletion env userId b c')
                   -> a = b)
  /\ (a <> b ->
      Api.issue env (Api.DeleteTask userId a)
      <> Api.issue env (Api.DeleteTask userId b)).
Proof.
  assert (Hd : Api.url (Api.deleteTask env userId a)
               = Api.url (Api.deleteTask env userId b) -> a = b).
  { cbn [Api.url Api.deleteTask]. intros H. apply ofNumber_inj.
    do 4 apply append_cancel_l in H. exact H. }
  split; [|split; [exact Hd|split]].
  - intros t t'. exact Hd.
  - intros c c'. cbn [Api.url Api.toggleTaskCompletion]. intros H.
    apply ofNumber_inj.
    do 4 apply append_cancel_l in H. eapply append_cancel_r. exact H.
  - intros Hne E. apply Hne, Hd. unfold Api.issue in E. now rewrite E.
Qed.

End Addresses.
